(* ===== verification/_CoqProject ===== *)
-Q . S2P
Prelude.v
Graph.v
Show.v
HamSpec.v
Search.v
View.v
Driver.v
