(* ===== verification/Prelude.v ===== *)
(** * Hamiltonian path search: a verification development

    The repository (src/main.py, src/view.py) has two core components in
    dependency order, a printer, a renderer and a driver:

    - [Graph] (src/main.py, class [Graph], lines 3-19): a vertex count [n],
      a [directed] flag and adjacency lists [adj], one Python list per
      vertex, built by [__init__] and mutated only by [add_edge]; [show]
      prints the lists.
    - [hamiltonian_path] (src/main.py, lines 22-46): a depth-first
      backtracking search that tries every start vertex in [range(n)] and,
      through the inner function [backtrack], extends a path held in a
      Python list [path] and a Python set [visited], both mutated in place
      and restored after every failed branch; it returns the first
      complete path (the list object [path] itself), or [None].
    - [visualizar_grafo] (src/view.py): copies the graph into a networkx
      graph, draws it and highlights the path's edges and vertices.
    - the driver (src/main.py, lines 48-71) builds two example graphs by
      [add_edge] calls, shows them, runs the search on them, prints the
      results and draws them.

    The search, the printer and the renderer read the graph ([graph.n],
    [graph.adj[v]]) and never write it; the graph is written only through
    [add_edge].  The renderer reads the search's result.

    ** Files and what they model

    - [Prelude] (this file): the Python effects the code relies on.  A
      state-and-exception monad [PyM S] (a computation reads and writes a
      state [S] and either raises an [exn] or returns a value; the state
      written before a raise is kept, as Python keeps the mutations made
      before an exception), given as stdpp [MRet]/[MBind]/[MThrow]
      instances so that stdpp's [x ← m ; k] notation reads like the code;
      [py_for] is a [for] loop, [py_zoom] runs a method on one part of a
      larger state, [py_exec] and [py_of_sum] pass results and exceptions
      between computations on different states.  Python list indexing with
      negative indices ([py_norm_index], [py_getitem], notation [l.[i]] in
      [py_scope]), [range] ([py_range]) and the truthiness of the search's
      result ([py_truthy]).  The hint databases [pyfacts] and [pyrw], the
      tactics [pyrun] (unfold a monadic run) and [compute_decide] (settle a
      decidable proposition on concrete data by evaluation), and the loop
      lemmas [py_for_inv], [py_for_modify], [py_for_skip], [py_for_raise].
    - [Graph]: the record [Graph], [Graph_init] for [__init__],
      [adj_append] for [self.adj[i].append(x)], [add_edge] as a
      [PyM Graph unit] computation, [add_edges] for a sequence of calls;
      the abstract adjacency [adj_spec] of an edge sequence.
    - [Show]: [Graph.show] ([Graph_show], [show_lines], [show_line],
      [show_header]) as a computation on standard output, with Python's
      [print] ([py_print]) and [str] on an [int] ([py_str_Z], through
      Stdlib's decimal conversion) and on a list ([py_str_list]); a parser
      [parse_show] of the printout, written for the proofs.
    - [HamSpec]: the abstract specification of the search: what a
      Hamiltonian path is ([is_ham_path], decidable, over [path_edges] and
      [partial_ok]) and a pure, state-free enumeration
      [completions]/[all_ham_paths] of all Hamiltonian paths in the order
      the code explores them, proved sound and complete for [is_ham_path];
      the class [HamSearch], the contract a search procedure offers its
      callers (the head of [all_ham_paths] on well-formed graphs), and the
      client lemmas (soundness, completeness, isolated vertex) proved in
      the Section [Client] against that interface only.
    - [Search]: the record [SearchState] ([visited] a [gset Z], [path] a
      [list Z]); the Python methods [set_add], [set_remove] (with its
      [KeyError]), [list_append], [list_pop] (with its [IndexError]); the
      loop [backtrack_loop], the inner function [backtrack], the start loop
      [hamiltonian_path_loop] and [hamiltonian_path], with the instance
      [hamiltonian_path_search] discharging [HamSearch].
    - [View]: [visualizar_grafo].  The networkx graph [NxGraph] (node list
      and edge list, [nx_add_edge] for [G.add_edge], which adds missing
      endpoints and ignores an edge it has), the construction loop
      [view_edges]/[view_build], the layout [pos] by its key set
      ([pos_lookup] raises [KeyError] for a vertex that is not a node), the
      matplotlib figure [Canvas] with one [Layer] per drawing call,
      [plt_title] and [plt_show]; [edges_path] is the list comprehension of
      the highlighted edges.
    - [Driver]: the whole [__main__] block [main] as a computation on a
      [World] (standard output and figures), one [driver_block] per graph;
      the driver's graphs [g1], [g2] and searches [caminho1], [caminho2];
      the complete graph [K_n] built by [add_edge] calls.

    ** What the theorems show

    - The search ([Search]): on a well-formed graph it computes exactly the
      head of the reference enumeration [all_ham_paths] (C1), a
      functional refinement of the stateful code by the pure
      specification; hence it is sound (C2) and complete (C3).  On every
      graph a failed branch restores [visited] and [path] exactly, and a
      success returns the [path] object (C4); the fuel is never exhausted
      (C5); [visited] always equals the set of [path]'s entries and [path]
      has no repetition (C7), so a returned path has exactly [n] distinct
      entries on every graph (C6).  Directed paths follow edges in their
      inserted direction (C11); on the complete graph the result is
      exactly [[0, ..., n - 1]] (C12), so a path always exists (C13); an
      isolated vertex means no path (C14); self-loops change nothing (C15);
      one vertex gives [[0]] (C16); no vertex gives [None], not the empty
      path (C17).
    - The graph ([Graph]): in-range insertions build exactly the abstract
      adjacency, insertion order included (C8, a refinement); they keep the
      well-formedness invariant [wf] (C9); an undirected graph so built is
      symmetric with multiplicities (C10); and the error branches of
      [add_edge]: a bad source raises before any mutation (C18), a bad
      target of an undirected edge raises after the first append (C19), a
      directed target is never checked (C20), a negative source wraps and,
      on an undirected graph, is stored as a negative entry (C21).  The
      search on such a graph returns a path through a vertex that does not
      exist, or through one vertex twice (C22).
    - The printer ([Show]): [Graph.show] raises nothing on a graph with a
      list per vertex and its printout reads back to the [directed] flag
      and every list (C23, a round trip); with fewer lists than [n] it
      raises [IndexError] after printing the lines it could (C24).
    - The renderer ([View]): on a well-formed graph of two or more
      vertices the search's result is always drawable and every
      highlighted edge is an edge of the drawing (C25); the graph drawn is
      the graph of the stored entries, without the isolated vertices
      (C26); on one vertex the drawing raises [KeyError] exactly when
      [adj[0]] is empty (C27).
    - The driver ([Driver]): a driver block composes construction,
      printing, search and drawing without an exception and prints what
      C23 reads back (C28); without a path it prints [Caminho Hamiltoniano:
      None] (C29).
    Every theorem with hypotheses has a witness lemma applying it to a
    concrete graph.

    ** Fuel

    [backtrack] recurses once per vertex added to [path], and stops as
    soon as [len(path) == n]; it is defined by recursion on a [fuel]
    argument that stands for the remaining recursion depth and raises the
    model-only exception [OutOfFuel] when it runs out.  [hamiltonian_path]
    supplies fuel [Z.to_nat n]: the path starts with one vertex, so at most
    [n - 1] nested calls happen below the first one.  C5 proves that this
    fuel is never exhausted, on every graph, so the model never stops
    where the program would go on.  Every other loop of the program is
    over a finite list and is structural.

    ** Not modelled

    - The geometry of the drawing: [spring_layout]'s coordinates, colours,
      sizes and the rendering by matplotlib; the model keeps the layout's
      key set (what decides [KeyError]) and the arguments of each drawing
      call.  The order in which networkx iterates a graph's edges is
      replaced by insertion order; no theorem depends on it.
    - Python's recursion limit: [backtrack] nests [n] frames, so a real
      run raises [RecursionError] for graphs of about a thousand vertices;
      the model has unbounded depth.
    - Non-integer vertices and non-integer [n]: the model types vertices
      and [n] as [Z].

    ** Plan for the next steps

    - parallel edges: the second copy of an entry repeats a subtree that
      already failed, so the result should not change either;
    - determinism across repeated calls with the shared [Graph] object,
      modelled as a store holding the graph between calls;
    - the behaviour of the search on ill-formed graphs in general: which
      exceptions [graph.adj[v]] raises for out-of-range vertices reached
      through a stored edge.
*)
From stdpp Require Export base list gmap.
From Stdlib Require Export ZArith Lia.

Declare Scope py_scope.
Delimit Scope py_scope with py.
Open Scope Z_scope.

(** ** Exceptions and the state-and-exception monad *)

(** The exceptions the modelled code can raise; [OutOfFuel] is the
    model's own, raised when the recursion-depth fuel is exhausted. *)
Inductive exn := IndexError | KeyError | OutOfFuel.

#[export] Instance exn_eq_dec : EqDecision exn.
Proof. solve_decision. Defined.

Definition PyM (S A : Type) : Type := S → (exn + A) * S.

#[export] Instance PyM_ret {S} : MRet (PyM S) := λ A x s, (inr x, s).
#[export] Instance PyM_bind {S} : MBind (PyM S) := λ A B f m s,
  match m s with
  | (inl e, s') => (inl e, s')
  | (inr x, s') => f x s'
  end.
#[export] Instance PyM_throw {S} : MThrow exn (PyM S) := λ A e s, (inl e, s).

Definition py_get {S} : PyM S S := λ s, (inr s, s).
Definition py_put {S} (s : S) : PyM S unit := λ _, (inr (), s).
Definition py_modify {S} (f : S → S) : PyM S unit := λ s, (inr (), f s).

(** Raise [e] when a Python lookup fails. *)
Definition py_lift {S A} (e : exn) (o : option A) : PyM S A :=
  match o with Some x => mret x | None => mthrow e end.

(** Raise the exception of a computation run elsewhere. *)
Definition py_of_sum {S A} (r : exn + A) : PyM S A :=
  match r with inl e => mthrow e | inr x => mret x end.

(** Run [m] on the part of the state [get] selects, writing it back with
    [set]: a method called on one object of a larger state. *)
Definition py_zoom {S T A} (get : S → T) (set : T → S → S) (m : PyM T A) : PyM S A :=
  λ s, let '(r, t) := m (get s) in (r, set t s).

(** The object a computation leaves, or the exception it raises. *)
Definition py_exec {S A} (m : PyM S A) (s : S) : exn + S :=
  match m s with (inl e, _) => inl e | (inr _, s') => inr s' end.

(** [for x in xs: body(x)] *)
Fixpoint py_for {S A} (xs : list A) (body : A → PyM S unit) : PyM S unit :=
  match xs with
  | [] => mret ()
  | x :: xs' => body x;; py_for xs' body
  end.

(** ** Python lists *)

(** The position a Python index [i] denotes in a list of length [len]:
    [l[i]] for [0 <= i < len], [l[len + i]] for [-len <= i < 0], and
    [IndexError] otherwise. *)
Definition py_norm_index (len : nat) (i : Z) : option nat :=
  if decide (0 ≤ i < Z.of_nat len) then Some (Z.to_nat i)
  else if decide (- Z.of_nat len ≤ i < 0) then Some (Z.to_nat (Z.of_nat len + i))
  else None.

Definition py_getitem {A} (l : list A) (i : Z) : option A :=
  k ← py_norm_index (length l) i; l !! k.

Notation "l .[ i ]" := (py_getitem l i) (at level 1, format "l .[ i ]") : py_scope.

(** [range(n)]; empty when [n <= 0]. *)
Definition py_range (n : Z) : list Z := Z.of_nat <$> seq 0 (Z.to_nat n).

(** Truthiness of the search's result: [None] and the empty list are
    false. *)
Definition py_truthy {A} (r : option (list A)) : bool :=
  match r with Some (_ :: _) => true | _ => false end.

Open Scope py_scope.

(** ** Automation *)

Create HintDb pyfacts discriminated.
Create Rewrite HintDb pyrw.

(** Unfold a monadic run to its [match]es and simplify. *)
Ltac pyrun :=
  repeat (unfold mbind, mret, mthrow, PyM_bind, PyM_ret, PyM_throw,
            py_get, py_put, py_modify, py_lift in *; simpl in *).

(** Prove a decidable proposition about concrete data by evaluating its
    decision procedure. *)
Ltac compute_decide :=
  match goal with |- ?P => apply (proj1 (bool_decide_eq_true P)); vm_compute; reflexivity end.

(** ** Lemmas on Python indexing *)

Lemma py_norm_index_lt len i k :
  py_norm_index len i = Some k → (k < len)%nat.
Proof. unfold py_norm_index. repeat case_decide; intros; simplify_eq; lia. Qed.

Lemma py_norm_index_nonneg len i :
  0 ≤ i < Z.of_nat len → py_norm_index len i = Some (Z.to_nat i).
Proof. intros. unfold py_norm_index. by rewrite decide_True. Qed.

Lemma py_norm_index_neg len i :
  - Z.of_nat len ≤ i < 0 → py_norm_index len i = Some (Z.to_nat (Z.of_nat len + i)).
Proof. intros. unfold py_norm_index. rewrite decide_False, decide_True; [done|lia|lia]. Qed.

Lemma py_norm_index_None len i :
  py_norm_index len i = None ↔ i < - Z.of_nat len ∨ Z.of_nat len ≤ i.
Proof. unfold py_norm_index. repeat case_decide; split; intros; try done; lia. Qed.

Lemma py_getitem_nonneg {A} (l : list A) i :
  0 ≤ i < Z.of_nat (length l) → l.[i] = l !! Z.to_nat i.
Proof. intros. unfold py_getitem. by rewrite py_norm_index_nonneg. Qed.

Lemma py_getitem_None {A} (l : list A) i :
  l.[i] = None ↔ i < - Z.of_nat (length l) ∨ Z.of_nat (length l) ≤ i.
Proof.
  unfold py_getitem. rewrite <- py_norm_index_None.
  destruct (py_norm_index _ _) eqn:E; simpl; [|done].
  apply py_norm_index_lt in E. split; [|done].
  intros Hn%lookup_ge_None. lia.
Qed.

Lemma elem_of_py_range n v : v ∈ py_range n ↔ 0 ≤ v < n.
Proof.
  unfold py_range. rewrite list_elem_of_fmap. split.
  - intros (k & -> & Hk%elem_of_seq). lia.
  - intros Hv. exists (Z.to_nat v). rewrite elem_of_seq. lia.
Qed.


Lemma py_truthy_nonempty {A} (q : list A) : py_truthy (Some q) = true ↔ q ≠ [].
Proof. destruct q; simpl; split; congruence. Qed.

#[export] Hint Resolve py_norm_index_lt : pyfacts.
#[export] Hint Rewrite @py_getitem_nonneg using lia : pyrw.

(** ** Lemmas on the monad *)

Lemma py_bind_inr {S A B} (m : PyM S A) (f : A → PyM S B) s x s' :
  m s = (inr x, s') → (m ≫= f) s = f x s'.
Proof. intros H. unfold mbind, PyM_bind. by rewrite H. Qed.

Lemma py_bind_inl {S A B} (m : PyM S A) (f : A → PyM S B) s e s' :
  m s = (inl e, s') → (m ≫= f) s = (inl e, s').
Proof. intros H. unfold mbind, PyM_bind. by rewrite H. Qed.

(** A loop whose every iteration succeeds and keeps [P] succeeds and keeps
    [P]. *)
Lemma py_for_inv {S A} (P : S → Prop) (xs : list A) (body : A → PyM S unit) s :
  P s → (∀ x s, x ∈ xs → P s → ∃ s', body x s = (inr (), s') ∧ P s') →
  ∃ s', py_for xs body s = (inr (), s') ∧ P s'.
Proof.
  revert s. induction xs as [|x xs IH]; intros s Hs Hb; [by exists s|].
  destruct (Hb x s) as (s1 & H1 & Hs1); [by left|done|].
  simpl. rewrite (py_bind_inr _ _ _ _ _ H1). apply IH; [done|].
  intros y t Hy. apply Hb. by right.
Qed.

(** A loop that only updates the state is a left fold. *)
Lemma py_for_modify {S A} (xs : list A) (f : A → S → S) s :
  py_for xs (λ x, py_modify (f x)) s = (inr (), foldl (λ s x, f x s) s xs).
Proof. revert s. induction xs as [|x xs IH]; intros s; [done|]. apply IH. Qed.

(** A loop whose iterations all succeed without changing the state. *)
Lemma py_for_skip {S A} (xs : list A) (body : A → PyM S unit) s :
  (∀ x, x ∈ xs → body x s = (inr (), s)) → py_for xs body s = (inr (), s).
Proof.
  induction xs as [|x xs IH]; intros Hb; [done|]. simpl.
  rewrite (py_bind_inr _ _ _ _ _ (Hb x ltac:(by left))). apply IH.
  intros y Hy. apply Hb. by right.
Qed.

(** A loop whose iterations either succeed without changing the state or
    raise [e], one of them raising: the loop raises [e]. *)
Lemma py_for_raise {S A} (xs : list A) (body : A → PyM S unit) s e :
  (∀ x, x ∈ xs → body x s = (inr (), s) ∨ body x s = (inl e, s)) →
  (∃ x, x ∈ xs ∧ body x s = (inl e, s)) → py_for xs body s = (inl e, s).
Proof.
  induction xs as [|x xs IH]; intros Hb (y & Hy & He); [by apply elem_of_nil in Hy|]. simpl.
  destruct (Hb x ltac:(by left)) as [Hx|Hx].
  - rewrite (py_bind_inr _ _ _ _ _ Hx). apply IH; [intros; apply Hb; by right|].
    apply elem_of_cons in Hy as [->|Hy]; [congruence|eauto].
  - by rewrite (py_bind_inl _ _ _ _ _ Hx).
Qed.

Lemma py_zoom_run {S T A} (get : S → T) (set : T → S → S) (m : PyM T A) s r t :
  m (get s) = (r, t) → py_zoom get set m s = (r, set t s).
Proof. intros H. unfold py_zoom. by rewrite H. Qed.

(** ** Lemmas on lists *)

Lemma filter_all_true {A} (P : A → Prop) `{∀ x, Decision (P x)} (l : list A) :
  (∀ x, x ∈ l → P x) → filter P l = l.
Proof.
  induction l as [|x l IH]; intros Hl; [done|]. rewrite filter_cons, decide_True by (apply Hl; by left).
  f_equal. apply IH. intros y Hy. apply Hl. by right.
Qed.

Lemma filter_all_false {A} (P : A → Prop) `{∀ x, Decision (P x)} (l : list A) :
  (∀ x, x ∈ l → ¬ P x) → filter P l = [].
Proof.
  induction l as [|x l IH]; intros Hl; [done|]. rewrite filter_cons, decide_False by (apply Hl; by left).
  apply IH. intros y Hy. apply Hl. by right.
Qed.

Lemma bind_const_nil {A B} (l : list A) : l ≫= (λ _, @nil B) = [].
Proof. by induction l. Qed.

Lemma bind_singleton_id {A} (l : list A) : l ≫= (λ x, [x]) = l.
Proof. induction l as [|x l IH]; [done|]. rewrite bind_cons, IH. done. Qed.

(** [range(k + 1)] is [range(k)] followed by [k]. *)
Lemma py_range_S k : py_range (Z.of_nat (S k)) = py_range (Z.of_nat k) ++ [Z.of_nat k].
Proof. unfold py_range. rewrite !Nat2Z.id, seq_S, fmap_app. done. Qed.

Lemma list_bind_assoc {A B C} (l : list A) (g : A → list B) (h : B → list C) :
  (l ≫= g) ≫= h = l ≫= (λ x, g x ≫= h).
Proof. induction l as [|x l IH]; [done|]. by rewrite !bind_cons, bind_app, IH. Qed.

(** [range(m)] is [range(k)] followed by [k, ..., m - 1]. *)
Lemma py_range_app k m :
  (k ≤ m)%nat → py_range (Z.of_nat m) = py_range (Z.of_nat k) ++ (Z.of_nat <$> seq k (m - k)).
Proof.
  intros Hk. unfold py_range. rewrite !Nat2Z.id.
  replace m with (k + (m - k))%nat at 1 by lia. by rewrite seq_app, fmap_app.
Qed.

Lemma elem_of_seq_Z x a len : x ∈ Z.of_nat <$> seq a len ↔ Z.of_nat a ≤ x < Z.of_nat (a + len).
Proof.
  rewrite list_elem_of_fmap. split.
  - intros (k & -> & Hk%elem_of_seq). lia.
  - intros Hx. exists (Z.to_nat x). rewrite elem_of_seq. lia.
Qed.

Lemma NoDup_py_range k : NoDup (py_range k).
Proof. apply NoDup_fmap_2; [intros ? ? ?; lia|apply NoDup_seq]. Qed.

Lemma bind_nil_l {A B} (f : A → list B) : [] ≫= f = [].
Proof. done. Qed.
