(* ===== verification/Graph.v ===== *)
(** * The [Graph] class of src/main.py (lines 3-12)

    [Graph] is the record of the object's three attributes; [Graph_init]
    is [__init__]; [adj_append] is [self.adj[i].append(x)], with Python's
    indexing (negative indices count from the end, anything else out of
    range raises [IndexError] before the append); [add_edge] is the method
    itself, a [PyM Graph unit] computation so that an [IndexError] raised by
    the second append keeps the first one, as in Python.  [add_edges] is a
    sequence of [add_edge] calls, the way the driver builds its graphs.

    The abstract side is [adj_spec]: the neighbour list of a vertex
    determined by the sequence of inserted edges, in insertion order.
    The theorems: [wf] (lengths and endpoints in range) is preserved by
    in-range insertions; building a graph from in-range edges gives exactly
    the lists [adj_spec] describes; an undirected graph so built is
    symmetric; and the error branches of [add_edge]. *)
From S2P Require Import Prelude.

Record Graph := mkGraph { n : Z; directed : bool; adj : list (list Z) }.

(** [Graph(n, directed)]: [[[] for _ in range(n)]] makes [n] distinct
    empty lists (no aliasing between them), none when [n <= 0]. *)
Definition Graph_init (n : Z) (directed : bool) : Graph :=
  mkGraph n directed (replicate (Z.to_nat n) []).

(** [self.adj[i].append(x)] *)
Definition adj_append (i x : Z) : PyM Graph unit :=
  g ← py_get;
  k ← py_lift IndexError (py_norm_index (length (adj g)) i);
  py_put (mkGraph (n g) (directed g) (alter (λ l, l ++ [x]) k (adj g))).

(** [Graph.add_edge(u, v)] *)
Definition add_edge (u v : Z) : PyM Graph unit :=
  adj_append u v;;
  g ← py_get;
  if negb (directed g) then adj_append v u else mret ().

(** A sequence of [add_edge] calls, as the driver makes them. *)
Fixpoint add_edges (es : list (Z * Z)) : PyM Graph unit :=
  match es with
  | [] => mret ()
  | (u, v) :: es' => add_edge u v;; add_edges es'
  end.

(** ** Well-formedness *)

(** A vertex index the spec allows: [0 <= v < n]. *)
Definition in_range (g : Graph) (v : Z) : Prop := 0 ≤ v < n g.

#[export] Instance in_range_dec g v : Decision (in_range g v).
Proof. unfold in_range. apply _. Defined.

(** One list per vertex, every endpoint a vertex. *)
Definition wf (g : Graph) : Prop :=
  length (adj g) = Z.to_nat (n g) ∧ Forall (Forall (in_range g)) (adj g).

#[export] Instance wf_dec g : Decision (wf g).
Proof. unfold wf. apply _. Defined.

(** Neighbours of [v] in a graph, the list [graph.adj[v]] the search
    iterates over, when [v] is a valid index. *)
Definition neighbors (g : Graph) (v : Z) : list Z := default [] (adj g).[v].

(** The list [graph.adj[v]] is one of the stored lists, or [v] is out of
    range. *)
Lemma neighbors_stored g v : neighbors g v = [] ∨ neighbors g v ∈ adj g.
Proof.
  unfold neighbors, py_getitem. destruct (py_norm_index _ _) as [k|]; simpl; [|by left].
  destruct (adj g !! k) eqn:Hk; simpl; [|by left]. right. by eapply list_elem_of_lookup_2.
Qed.

(** ** Abstract adjacency *)

(** What inserting edge [e] contributes to the neighbour list of [w]. *)
Definition edge_contrib (d : bool) (w : Z) (e : Z * Z) : list Z :=
  (if decide (e.1 = w) then [e.2] else []) ++
  (if d then [] else if decide (e.2 = w) then [e.1] else []).

(** The neighbour list of [w] after inserting [es] in order. *)
Definition adj_spec (d : bool) (es : list (Z * Z)) (w : Z) : list Z :=
  es ≫= edge_contrib d w.

(** Edges whose endpoints are vertices of a graph with [n0] vertices. *)
Definition edges_in_range (n0 : Z) (es : list (Z * Z)) : Prop :=
  Forall (λ e, 0 ≤ e.1 < n0 ∧ 0 ≤ e.2 < n0) es.

(** The graph a sequence of in-range insertions builds (see [add_edges_built]). *)
Definition built_graph (n0 : Z) (d : bool) (es : list (Z * Z)) : Graph :=
  mkGraph n0 d ((λ w, adj_spec d es (Z.of_nat w)) <$> seq 0 (Z.to_nat n0)).

(** ** The two branches of [self.adj[i].append(x)] *)

Lemma adj_append_ok g i x k :
  py_norm_index (length (adj g)) i = Some k →
  adj_append i x g = (inr (), mkGraph (n g) (directed g) (alter (λ l, l ++ [x]) k (adj g))).
Proof. intros Hk. unfold adj_append. pyrun. by rewrite Hk. Qed.

Lemma adj_append_err g i x :
  py_norm_index (length (adj g)) i = None → adj_append i x g = (inl IndexError, g).
Proof. intros Hk. unfold adj_append. pyrun. by rewrite Hk. Qed.

Lemma length_alter_append (xs : list (list Z)) k x :
  length (alter (λ l, l ++ [x]) k xs) = length xs.
Proof. apply length_alter. Qed.

Lemma lookup_alter_append (xs : list (list Z)) k x w :
  alter (λ l, l ++ [x]) k xs !! w =
  (λ l, l ++ if decide (k = w) then [x] else []) <$> xs !! w.
Proof.
  rewrite list_lookup_alter. case_decide; subst; [done|].
  destruct (xs !! w); simpl; by rewrite ?app_nil_r.
Qed.

(** [add_edge] with both endpoints valid non-negative indices: every list
    [adj[w]] gets what [edge_contrib] says, in order. *)
Lemma add_edge_lookup g u v :
  0 ≤ u < Z.of_nat (length (adj g)) → 0 ≤ v < Z.of_nat (length (adj g)) →
  ∃ g', add_edge u v g = (inr (), g') ∧ n g' = n g ∧ directed g' = directed g ∧
    length (adj g') = length (adj g) ∧
    ∀ w, adj g' !! w = (λ l, l ++ edge_contrib (directed g) (Z.of_nat w) (u, v)) <$> adj g !! w.
Proof.
  intros Hu Hv. unfold add_edge.
  rewrite (py_bind_inr _ _ _ () _ (adj_append_ok g u v _ (py_norm_index_nonneg _ _ Hu))).
  pyrun. unfold edge_contrib; simpl.
  destruct (directed g); simpl.
  - eexists; split_and!; [done..| |]; [apply length_alter_append|].
    intros w; cbn [adj]. rewrite lookup_alter_append, app_nil_r.
    destruct (adj g !! w); simpl; [|done].
    repeat case_decide; try done; lia.
  - rewrite (adj_append_ok _ _ _ (Z.to_nat v)); simpl;
      [|rewrite length_alter_append; by apply py_norm_index_nonneg].
    eexists; split_and!; [done..| |]; [by cbn [adj]; rewrite !length_alter_append|].
    intros w; cbn [adj]. rewrite lookup_alter_append, lookup_alter_append.
    destruct (adj g !! w); simpl; [|done]. rewrite <- app_assoc.
    repeat case_decide; try done; lia.
Qed.


Lemma add_edges_lookup es g :
  edges_in_range (Z.of_nat (length (adj g))) es →
  ∃ g', add_edges es g = (inr (), g') ∧ n g' = n g ∧ directed g' = directed g ∧
    length (adj g') = length (adj g) ∧
    ∀ w, adj g' !! w = (λ l, l ++ adj_spec (directed g) es (Z.of_nat w)) <$> adj g !! w.
Proof.
  revert g. induction es as [|[u v] es IH]; intros g Hes; simpl.
  - exists g. split_and!; [done..|]. intros w. destruct (adj g !! w); simpl; by rewrite ?app_nil_r.
  - apply Forall_cons in Hes as [[Hu Hv] Hes].
    destruct (add_edge_lookup g u v Hu Hv) as (g1 & Hg1 & Hn1 & Hd1 & Hl1 & Hw1).
    rewrite (py_bind_inr _ _ _ _ _ Hg1).
    destruct (IH g1) as (g2 & Hg2 & Hn2 & Hd2 & Hl2 & Hw2); [by rewrite Hl1|].
    exists g2. split_and!; [done|congruence|congruence|congruence|].
    intros w. rewrite Hw2, Hw1, Hd1. destruct (adj g !! w); simpl; [|done].
    by rewrite <- app_assoc.
Qed.

Lemma edges_in_range_pos n0 es :
  edges_in_range n0 es → es ≠ [] → 0 < n0.
Proof. destruct es as [|[u v] es]; [done|]. intros [[? ?] _]%Forall_cons _. simpl in *; lia. Qed.

Lemma elem_of_edge_contrib d w e x :
  x ∈ edge_contrib d w e ↔
    (e.1 = w ∧ x = e.2) ∨ (d = false ∧ e.2 = w ∧ x = e.1).
Proof.
  unfold edge_contrib. rewrite elem_of_app.
  destruct d; repeat case_decide;
    rewrite ?list_elem_of_singleton, ?elem_of_nil; intuition congruence.
Qed.

(** The abstract adjacency as a relation on vertices. *)
Lemma elem_of_adj_spec d es u v :
  v ∈ adj_spec d es u ↔ (u, v) ∈ es ∨ (d = false ∧ (v, u) ∈ es).
Proof.
  unfold adj_spec. rewrite list_elem_of_bind. setoid_rewrite elem_of_edge_contrib.
  split.
  - intros ([a b] & He & Hin); simpl in He.
    destruct He as [[-> ->]|(-> & -> & ->)]; auto.
  - intros [Hin|[-> Hin]]; [exists (u, v)|exists (v, u)]; simpl; auto.
Qed.

Lemma adj_spec_in_range n0 d es u :
  edges_in_range n0 es → Forall (λ v, 0 ≤ v < n0) (adj_spec d es u).
Proof.
  intros Hes. apply Forall_forall. intros v [Hin|[_ Hin]]%elem_of_adj_spec;
    eapply Forall_forall in Hes; [|exact Hin| |exact Hin]; simpl in *; lia.
Qed.

#[export] Hint Resolve adj_spec_in_range : pyfacts.

(** ** Properties of [Graph] *)


Lemma add_edges_built (n0 : Z) (d : bool) (es : list (Z * Z)) :
  edges_in_range n0 es →
  add_edges es (Graph_init n0 d) = (inr (), built_graph n0 d es).
Proof.
  intros Hes.
  destruct (add_edges_lookup es (Graph_init n0 d)) as ([n' d' a'] & -> & Hn & Hd & Hl & Hw).
  { destruct es; [constructor|].
    assert (0 < n0) by (eapply edges_in_range_pos; [exact Hes|congruence]).
    unfold Graph_init; simpl. by rewrite length_replicate, Z2Nat.id by lia. }
  unfold built_graph. simpl in *; subst. do 2 f_equal. apply list_eq. intros w.
  rewrite Hw, list_lookup_fmap. unfold Graph_init; simpl.
  destruct (decide (w < Z.to_nat n0)%nat).
  - by rewrite lookup_replicate_2, lookup_seq_lt by lia.
  - rewrite (proj1 (lookup_replicate_None _ _ _)), lookup_seq_ge by lia. done.
Qed.

(** C8: Building a graph with [Graph(n0, d)] and a sequence of in-range
    [add_edge] calls raises nothing and leaves, for every vertex [w], the
    list [adj[w]] equal to the abstract neighbour list [adj_spec d es w]:
    the targets of the edges leaving [w] and, when undirected, the sources
    of the edges entering [w], in insertion order. *)
Theorem add_edges_refines (n0 : Z) (d : bool) (es : list (Z * Z)) :
  edges_in_range n0 es →
  add_edges es (Graph_init n0 d) =
    (inr (), mkGraph n0 d ((λ w, adj_spec d es (Z.of_nat w)) <$> seq 0 (Z.to_nat n0))).
Proof. apply add_edges_built. Qed.

(** Appending an out-of-range vertex to an existing list breaks [wf]. *)
Lemma append_out_of_range_not_wf g d k v :
  (k < length (adj g))%nat → ¬ in_range g v →
  ¬ wf (mkGraph (n g) d (alter (λ l, l ++ [v]) k (adj g))).
Proof.
  intros Hk Hv [_ Hall]; simpl in Hall.
  destruct (lookup_lt_is_Some_2 (adj g) k Hk) as [l Hl].
  assert (alter (λ l, l ++ [v]) k (adj g) !! k = Some (l ++ [v])) as Hl'
    by (rewrite list_lookup_alter_eq, Hl; done).
  rewrite Forall_lookup in Hall. specialize (Hall _ _ Hl').
  apply Forall_app in Hall as [_ Hall]. apply Forall_inv in Hall.
  exact (Hv Hall).
Qed.

(** In-range insertions keep [wf]. *)
Lemma add_edge_wf g u v :
  wf g → in_range g u → in_range g v →
  ∃ g', add_edge u v g = (inr (), g') ∧ wf g' ∧ n g' = n g ∧ directed g' = directed g.
Proof.
  intros [Hlen Hall] Hu Hv. unfold in_range in *.
  destruct (add_edge_lookup g u v) as (g' & Hg & Hn & Hd & Hlg & Hw); [rewrite Hlen; lia..|].
  exists g'. split_and!; [done| |done|done]. split; [congruence|].
  apply Forall_lookup_2. intros w l' Hl'. rewrite Hw in Hl'.
  apply fmap_Some in Hl' as (l & Hl & ->). apply Forall_app; split.
  - eapply Forall_impl; [by eapply Forall_lookup_1|]. unfold in_range. by rewrite Hn.
  - apply Forall_forall. intros x [[_ ->]|(_ & _ & ->)]%elem_of_edge_contrib;
      unfold in_range; simpl; lia.
Qed.

(** The entries a self-loop [(u, u)] adds to [adj[w]] all name [w]. *)
Lemma filter_edge_contrib_self d w u :
  filter (λ x, x ≠ w) (edge_contrib d w (u, u)) = [].
Proof.
  apply filter_all_false. intros x Hx%elem_of_edge_contrib. naive_solver.
Qed.

(** [add_edge(u, u)] on a well-formed graph: the lists change only by
    entries naming their own vertex. *)
Lemma add_edge_self_loop g u :
  wf g → in_range g u →
  ∃ g', add_edge u u g = (inr (), g') ∧ wf g' ∧ n g' = n g ∧
    ∀ x, in_range g x →
      filter (λ w, w ≠ x) (neighbors g' x) = filter (λ w, w ≠ x) (neighbors g x).
Proof.
  intros Hwf Hu. destruct (add_edge_wf g u u Hwf Hu Hu) as (g' & Hg & Hwf' & Hn & _).
  destruct Hwf as [Hlen _]. unfold in_range in Hu.
  destruct (add_edge_lookup g u u) as (g'' & Hg'' & _ & Hd & Hl & Hw); [lia..|].
  rewrite Hg in Hg''. injection Hg'' as <-.
  exists g'. split_and!; [done..|]. intros x Hx. unfold in_range in Hx.
  unfold neighbors. rewrite !py_getitem_nonneg by lia. rewrite Hw.
  destruct (adj g !! Z.to_nat x) as [l|]; simpl; [|done].
  rewrite filter_app, Z2Nat.id, filter_edge_contrib_self by lia. apply app_nil_r.
Qed.

(** C9: [add_edge] with both endpoints in [0, n) on a well-formed graph
    raises nothing and gives a well-formed graph with the same [n] and
    [directed]. *)
Theorem add_edge_preserves_wf g u v :
  wf g → in_range g u → in_range g v →
  ∃ g', add_edge u v g = (inr (), g') ∧ wf g' ∧ n g' = n g ∧ directed g' = directed g.
Proof. apply add_edge_wf. Qed.

(** C18: [add_edge(u, v)] with [u] outside Python's index range of [adj]
    raises [IndexError] before any mutation: the graph is unchanged. *)
Theorem add_edge_bad_source g u v :
  wf g → (u < - n g ∨ n g ≤ u) → add_edge u v g = (inl IndexError, g).
Proof.
  intros [Hlen _] Hu. unfold add_edge.
  apply (py_bind_inl _ _ _ IndexError g), adj_append_err, py_norm_index_None.
  rewrite Hlen. lia.
Qed.

(** C19: On an undirected graph, [add_edge(u, v)] with [u] a vertex and [v]
    outside Python's index range raises [IndexError] from the second
    append, after the first one has put [v] into [adj[u]]: the object is
    left mutated and no longer well formed. *)
Theorem add_edge_bad_target_undirected g u v :
  wf g → directed g = false → in_range g u → (v < - n g ∨ n g ≤ v) →
  add_edge u v g =
    (inl IndexError, mkGraph (n g) false (alter (λ l, l ++ [v]) (Z.to_nat u) (adj g))) ∧
  ¬ wf (mkGraph (n g) false (alter (λ l, l ++ [v]) (Z.to_nat u) (adj g))).
Proof.
  intros [Hlen Hall] Hd Hu Hv. unfold in_range in *. split.
  - unfold add_edge.
    rewrite (py_bind_inr _ _ _ () _ (adj_append_ok g u v _ (py_norm_index_nonneg (length (adj g)) u ltac:(lia)))).
    pyrun. rewrite Hd; simpl.
    rewrite adj_append_err; [done|]. simpl. rewrite length_alter_append.
    apply py_norm_index_None. lia.
  - apply append_out_of_range_not_wf; unfold in_range; lia.
Qed.

(** C20: On a directed graph, [add_edge(u, v)] never looks at [v]: with [u]
    a vertex and [v] outside [0, n) it succeeds and leaves a graph that is
    not well formed. *)
Theorem add_edge_directed_unchecked g u v :
  wf g → directed g = true → in_range g u → ¬ in_range g v →
  ∃ g', add_edge u v g = (inr (), g') ∧ ¬ wf g'.
Proof.
  intros [Hlen Hall] Hd Hu Hv. unfold in_range in *. unfold add_edge.
  rewrite (py_bind_inr _ _ _ () _ (adj_append_ok g u v _ (py_norm_index_nonneg (length (adj g)) u ltac:(lia)))).
  pyrun. rewrite Hd; simpl. eexists; split; [done|].
  rewrite <- Hd. apply append_out_of_range_not_wf; unfold in_range; lia.
Qed.

(** C21: A negative source [-n <= u < 0] is not rejected, on directed and
    undirected graphs alike: Python indexing makes [add_edge(u, v)] append
    [v] to [adj[n + u]], and an undirected graph then appends the negative
    value [u] itself to [adj[v]], where the search later reads it as the
    vertex [n + u]. *)
Theorem add_edge_negative_source g u v :
  wf g → - n g ≤ u < 0 → (directed g = false → in_range g v) →
  add_edge u v g =
    (inr (), mkGraph (n g) (directed g)
               (let a := alter (λ l, l ++ [v]) (Z.to_nat (n g + u)) (adj g) in
                if directed g then a else alter (λ l, l ++ [u]) (Z.to_nat v) a)).
Proof.
  intros [Hlen _] Hu Hv. unfold add_edge.
  rewrite (py_bind_inr _ _ _ () _ (adj_append_ok g u v _ (py_norm_index_neg (length (adj g)) u ltac:(lia)))).
  replace (Z.to_nat (Z.of_nat (length (adj g)) + u)) with (Z.to_nat (n g + u)) by lia.
  pyrun. destruct (directed g) eqn:Hd; simpl; [done|].
  specialize (Hv eq_refl). unfold in_range in Hv.
  rewrite (adj_append_ok _ v u (Z.to_nat v)); [done|]. simpl. apply py_norm_index_nonneg.
  rewrite length_alter_append. lia.
Qed.

Lemma adj_spec_cons d e es w :
  adj_spec d (e :: es) w = edge_contrib d w e ++ adj_spec d es w.
Proof. reflexivity. Qed.


Lemma built_graph_neighbors n0 d es u :
  0 ≤ u < n0 → neighbors (built_graph n0 d es) u = adj_spec d es u.
Proof.
  intros Hu. unfold neighbors, built_graph; simpl.
  rewrite py_getitem_nonneg by (rewrite length_fmap, length_seq; lia).
  rewrite list_lookup_fmap, lookup_seq_lt by lia. simpl. by rewrite Z2Nat.id by lia.
Qed.

Lemma built_graph_wf n0 d es : edges_in_range n0 es → wf (built_graph n0 d es).
Proof.
  intros Hes. split; simpl; [by rewrite length_fmap, length_seq|].
  apply Forall_fmap, Forall_forall. intros w _. eapply Forall_impl; [by eapply adj_spec_in_range|].
  done.
Qed.

Lemma count_occ_edge_contrib_sym e u v :
  count_occ Z.eq_dec (edge_contrib false u e) v = count_occ Z.eq_dec (edge_contrib false v e) u.
Proof.
  destruct e as [a b]. unfold edge_contrib; simpl.
  repeat (case_decide || destruct (Z.eq_dec _ _)); simpl; subst; try done;
    repeat (destruct (Z.eq_dec _ _)); congruence.
Qed.

(** C10: Every undirected graph built by in-range [add_edge] calls is
    symmetric with multiplicities: [v] occurs in [adj[u]] exactly as
    often as [u] occurs in [adj[v]]. *)
Theorem add_edges_undirected_symmetric n0 es g u v :
  edges_in_range n0 es → add_edges es (Graph_init n0 false) = (inr (), g) →
  0 ≤ u < n0 → 0 ≤ v < n0 →
  count_occ Z.eq_dec (neighbors g u) v = count_occ Z.eq_dec (neighbors g v) u.
Proof.
  intros Hes Hg Hu Hv. rewrite add_edges_built in Hg by done. injection Hg as <-. rewrite !built_graph_neighbors by done.
  clear Hes. induction es as [|e es IH]; [done|].
  by rewrite !adj_spec_cons, !count_occ_app, IH, count_occ_edge_contrib_sym.
Qed.

Lemma getitem_neighbors g v : wf g → in_range g v → (adj g).[v] = Some (neighbors g v).
Proof.
  intros [Hlen _] Hv. unfold neighbors, in_range in *.
  rewrite py_getitem_nonneg by lia.
  destruct (lookup_lt_is_Some_2 (adj g) (Z.to_nat v)) as [l Hl]; [lia|]. by rewrite Hl.
Qed.

(** ** Witnesses: the properties at concrete graphs *)

Lemma add_edges_refines_witness :
  edges_in_range 3 [(0, 1); (1, 2)] ∧
  add_edges [(0, 1); (1, 2)] (Graph_init 3 false) =
    (inr (), mkGraph 3 false ((λ w, adj_spec false [(0, 1); (1, 2)] (Z.of_nat w)) <$> seq 0 (Z.to_nat 3))).
Proof.
  assert (H : edges_in_range 3 [(0, 1); (1, 2)]) by compute_decide.
  split; [exact H|exact (add_edges_refines 3 false _ H)].
Defined.

Lemma add_edge_preserves_wf_witness :
  wf (Graph_init 3 false) ∧ in_range (Graph_init 3 false) 0 ∧ in_range (Graph_init 3 false) 2 ∧
  ∃ g', add_edge 0 2 (Graph_init 3 false) = (inr (), g') ∧ wf g' ∧
    n g' = n (Graph_init 3 false) ∧ directed g' = directed (Graph_init 3 false).
Proof.
  assert (Hw : wf (Graph_init 3 false)) by compute_decide.
  assert (Hu : in_range (Graph_init 3 false) 0) by compute_decide.
  assert (Hv : in_range (Graph_init 3 false) 2) by compute_decide.
  split; [exact Hw|split; [exact Hu|split; [exact Hv|]]].
  exact (add_edge_preserves_wf _ _ _ Hw Hu Hv).
Defined.

Lemma add_edges_undirected_symmetric_witness :
  edges_in_range 3 [(0, 1); (1, 2); (0, 1)] ∧
  add_edges [(0, 1); (1, 2); (0, 1)] (Graph_init 3 false) =
    (inr (), mkGraph 3 false [[1; 1]; [0; 2; 0]; [1]]) ∧
  0 ≤ 0 < 3 ∧ 0 ≤ 1 < 3 ∧
  count_occ Z.eq_dec (neighbors (mkGraph 3 false [[1; 1]; [0; 2; 0]; [1]]) 0) 1 =
  count_occ Z.eq_dec (neighbors (mkGraph 3 false [[1; 1]; [0; 2; 0]; [1]]) 1) 0.
Proof.
  assert (He : edges_in_range 3 [(0, 1); (1, 2); (0, 1)]) by compute_decide.
  assert (Hg : add_edges [(0, 1); (1, 2); (0, 1)] (Graph_init 3 false) =
    (inr (), mkGraph 3 false [[1; 1]; [0; 2; 0]; [1]])) by (vm_compute; reflexivity).
  assert (Hu : 0 ≤ 0 < 3) by lia. assert (Hv : 0 ≤ 1 < 3) by lia.
  split; [exact He|split; [exact Hg|split; [exact Hu|split; [exact Hv|]]]].
  exact (add_edges_undirected_symmetric 3 _ _ 0 1 He Hg Hu Hv).
Defined.

Lemma add_edge_bad_source_witness :
  wf (Graph_init 3 false) ∧ (3 < - n (Graph_init 3 false) ∨ n (Graph_init 3 false) ≤ 3) ∧
  add_edge 3 0 (Graph_init 3 false) = (inl IndexError, Graph_init 3 false).
Proof.
  assert (Hw : wf (Graph_init 3 false)) by compute_decide.
  assert (Hu : 3 < - n (Graph_init 3 false) ∨ n (Graph_init 3 false) ≤ 3) by (simpl; lia).
  split; [exact Hw|split; [exact Hu|exact (add_edge_bad_source _ 3 0 Hw Hu)]].
Defined.

Lemma add_edge_bad_target_undirected_witness :
  wf (Graph_init 3 false) ∧ directed (Graph_init 3 false) = false ∧
  in_range (Graph_init 3 false) 0 ∧ (5 < - n (Graph_init 3 false) ∨ n (Graph_init 3 false) ≤ 5) ∧
  add_edge 0 5 (Graph_init 3 false) =
    (inl IndexError, mkGraph 3 false (alter (λ l, l ++ [5]) (Z.to_nat 0) (adj (Graph_init 3 false)))) ∧
  ¬ wf (mkGraph 3 false (alter (λ l, l ++ [5]) (Z.to_nat 0) (adj (Graph_init 3 false)))).
Proof.
  assert (Hw : wf (Graph_init 3 false)) by compute_decide.
  assert (Hd : directed (Graph_init 3 false) = false) by reflexivity.
  assert (Hu : in_range (Graph_init 3 false) 0) by compute_decide.
  assert (Hv : 5 < - n (Graph_init 3 false) ∨ n (Graph_init 3 false) ≤ 5) by (simpl; lia).
  split; [exact Hw|split; [exact Hd|split; [exact Hu|split; [exact Hv|]]]].
  exact (add_edge_bad_target_undirected _ 0 5 Hw Hd Hu Hv).
Defined.

Lemma add_edge_directed_unchecked_witness :
  wf (Graph_init 2 true) ∧ directed (Graph_init 2 true) = true ∧
  in_range (Graph_init 2 true) 0 ∧ ¬ in_range (Graph_init 2 true) 5 ∧
  ∃ g', add_edge 0 5 (Graph_init 2 true) = (inr (), g') ∧ ¬ wf g'.
Proof.
  assert (Hw : wf (Graph_init 2 true)) by compute_decide.
  assert (Hd : directed (Graph_init 2 true) = true) by reflexivity.
  assert (Hu : in_range (Graph_init 2 true) 0) by compute_decide.
  assert (Hv : ¬ in_range (Graph_init 2 true) 5) by compute_decide.
  split; [exact Hw|split; [exact Hd|split; [exact Hu|split; [exact Hv|]]]].
  exact (add_edge_directed_unchecked _ 0 5 Hw Hd Hu Hv).
Defined.

Lemma add_edge_negative_source_witness :
  wf (Graph_init 3 false) ∧ - n (Graph_init 3 false) ≤ -1 < 0 ∧
  (directed (Graph_init 3 false) = false → in_range (Graph_init 3 false) 0) ∧
  add_edge (-1) 0 (Graph_init 3 false) =
    (inr (), mkGraph 3 false [[-1]; []; [0]]).
Proof.
  assert (Hw : wf (Graph_init 3 false)) by compute_decide.
  assert (Hu : - n (Graph_init 3 false) ≤ -1 < 0) by (simpl; lia).
  assert (Hv : directed (Graph_init 3 false) = false → in_range (Graph_init 3 false) 0).
  { intros _. compute_decide. }
  split; [exact Hw|split; [exact Hu|split; [exact Hv|]]].
  rewrite (add_edge_negative_source _ (-1) 0 Hw Hu Hv). reflexivity.
Defined.
