(* ===== verification/Show.v ===== *)
(** * Printing: [Graph.show] (src/main.py lines 14-19) and Python's [print]

    Standard output is the state of a [PyM string] computation: [py_print]
    appends what Python's [print(a, b, ...)] writes (the [str] of its
    arguments joined by one space, then a newline), so that an exception
    raised half way through [Graph.show] keeps the lines already printed.
    [py_str_Z] is [str] on an [int] (Stdlib's decimal conversion, which
    prints no leading zeros and a [-] for negatives, as Python does) and
    [py_str_list] is [str] on a list of [int]s.  [Graph_show] is the
    method.

    The abstract side is a parser for the text [Graph.show] prints,
    [parse_show], written for the proofs only (the program has none); the
    round-trip theorem says the printout determines the directedness and
    every adjacency list, in order. *)
From Stdlib Require Import Ascii DecimalString DecimalZ.
From stdpp Require Import strings.
From S2P Require Import Prelude Graph.

(** ** Python's [str] and [print] *)

Definition newline : ascii := "010"%char.

(** [sep.join(xs)] *)
Fixpoint py_join (sep : string) (xs : list string) : string :=
  match xs with
  | [] => ""
  | [x] => x
  | x :: xs' => x +:+ sep +:+ py_join sep xs'
  end.

(** [str(z)] for an [int] *)
Definition py_str_Z (z : Z) : string := NilZero.string_of_int (Z.to_int z).

(** [str(l)] for a [list] of [int]s: ["[1, 2]"], ["[]"] *)
Definition py_str_list (l : list Z) : string :=
  "[" +:+ py_join ", " (py_str_Z <$> l) +:+ "]".

(** [print(a, b, ...)]: the arguments joined by a space, then a newline. *)
Definition py_print (args : list string) : PyM string unit :=
  py_modify (λ out, out +:+ py_join " " args +:+ String newline EmptyString).

(** ** [Graph.show] *)

(** [tipo = "Dirigido" if self.directed else "Não dirigido"] *)
Definition show_tipo (g : Graph) : string :=
  if directed g then "Dirigido" else "Não dirigido".

(** [f"  {i} -> {self.adj[i]}"] *)
Definition show_line (i : Z) (l : list Z) : string :=
  "  " +:+ py_str_Z i +:+ " -> " +:+ py_str_list l.

(** [f"Grafo {tipo}:"] *)
Definition show_header (g : Graph) : string := "Grafo " +:+ show_tipo g +:+ ":".

(** [for i in range(self.n): print(f"  {i} -> {self.adj[i]}")] *)
Fixpoint show_lines (g : Graph) (idx : list Z) : PyM string unit :=
  match idx with
  | [] => mret ()
  | i :: idx' =>
      l ← py_lift IndexError (adj g).[i];
      py_print [show_line i l];;
      show_lines g idx'
  end.

(** [Graph.show()] *)
Definition Graph_show (g : Graph) : PyM string unit :=
  py_print [show_header g];;
  show_lines g (py_range (n g));;
  py_print [].

(** ** Reading the printout back (for the proofs) *)

(** The pieces of [s] between the occurrences of [c]. *)
Fixpoint split_on (c : ascii) (s : string) : list string :=
  match s with
  | EmptyString => [EmptyString]
  | String a s' =>
      let rest := split_on c s' in
      if Ascii.eqb a c then EmptyString :: rest
      else match rest with
           | r :: rs => String a r :: rs
           | [] => [String a EmptyString]
           end
  end.

(** [s] without the prefix [p], when it has it. *)
Fixpoint strip_prefix (p s : string) : option string :=
  match p, s with
  | EmptyString, _ => Some s
  | String a p', String b s' => if Ascii.eqb a b then strip_prefix p' s' else None
  | String _ _, EmptyString => None
  end.

(** [s] cut at the first [c]: the part before and the part after. *)
Fixpoint split_first (c : ascii) (s : string) : option (string * string) :=
  match s with
  | EmptyString => None
  | String a s' =>
      if Ascii.eqb a c then Some (EmptyString, s')
      else '(x, y) ← split_first c s'; Some (String a x, y)
  end.

Definition parse_int (s : string) : option Z := Z.of_int <$> NilZero.int_of_string s.

Definition drop_space (s : string) : string :=
  match s with String " "%char s' => s' | _ => s end.

Definition parse_list (s : string) : option (list Z) :=
  body ← strip_prefix "[" s;
  '(items, rest) ← split_first "]"%char body;
  if decide (rest = EmptyString) then
    if decide (items = EmptyString) then Some []
    else mapM (parse_int ∘ drop_space) (split_on ","%char items)
  else None.

Definition parse_line (s : string) : option (Z * list Z) :=
  s1 ← strip_prefix "  " s;
  '(istr, s2) ← split_first " "%char s1;
  i ← parse_int istr;
  s3 ← strip_prefix "-> " s2;
  l ← parse_list s3;
  Some (i, l).

Definition parse_header (s : string) : option bool :=
  if decide (s = "Grafo Dirigido:") then Some true
  else if decide (s = "Grafo Não dirigido:") then Some false
  else None.

(** The directedness and adjacency lists a [Graph.show] printout
    describes: a header line, one line per vertex [0, 1, ...] in order,
    an empty line. *)
Definition parse_show (out : string) : option (bool * list (list Z)) :=
  match split_on newline out with
  | hdr :: rest =>
      d ← parse_header hdr;
      match rev rest with
      | EmptyString :: EmptyString :: body =>
          ls ← mapM parse_line (rev body);
          if decide (fst <$> ls = py_range (Z.of_nat (length ls)))
          then Some (d, snd <$> ls) else None
      | _ => None
      end
  | [] => None
  end.

(** [c] does not occur in [s]. *)
Fixpoint no_char (c : ascii) (s : string) : bool :=
  match s with
  | EmptyString => true
  | String a s' => negb (Ascii.eqb a c) && no_char c s'
  end.

(** Every character of [s] satisfies [P]. *)
Fixpoint all_chars (P : ascii → bool) (s : string) : bool :=
  match s with
  | EmptyString => true
  | String a s' => P a && all_chars P s'
  end.

(** The characters [str] of an [int] is made of. *)
Definition num_char (a : ascii) : bool :=
  match a with
  | "0" | "1" | "2" | "3" | "4" | "5" | "6" | "7" | "8" | "9" | "-" => true
  | _ => false
  end%char.

(** The text of [print] calls with single arguments [xs], in order. *)
Definition text_of_lines (xs : list string) : string :=
  foldr (λ x acc, x +:+ String newline acc) EmptyString xs.

(** What [Graph.show] prints on a graph with one adjacency list per
    vertex: the header, a line per vertex, an empty line. *)
Definition show_text (g : Graph) : string :=
  text_of_lines (show_header g :: zip_with show_line (py_range (n g)) (adj g) ++ [EmptyString]).

(** ** Lemmas on strings *)


Lemma str_app_cons a s t : String a s +:+ t = String a (s +:+ t).
Proof. reflexivity. Qed.

Lemma str_app_nil_l t : EmptyString +:+ t = t.
Proof. reflexivity. Qed.

Lemma str_app_nil_r s : s +:+ EmptyString = s.
Proof. induction s as [|a s IH]; [done|]. by rewrite str_app_cons, IH. Qed.

Lemma str_app_assoc s t u : (s +:+ t) +:+ u = s +:+ (t +:+ u).
Proof. induction s as [|a s IH]; [done|]. by rewrite !str_app_cons, IH. Qed.

Lemma str_app_nonempty s t : s ≠ EmptyString → s +:+ t ≠ EmptyString.
Proof. by destruct s. Qed.

Lemma no_char_app c s t : no_char c (s +:+ t) = no_char c s && no_char c t.
Proof. induction s as [|a s IH]; [done|]. rewrite str_app_cons. simpl. by rewrite IH, andb_assoc. Qed.

Lemma all_chars_no_char c s :
  num_char c = false → all_chars num_char s = true → no_char c s = true.
Proof.
  intros Hc. induction s as [|a s IH]; [done|]. simpl.
  intros [Ha Hs]%andb_prop. rewrite IH by done.
  destruct (Ascii.eqb_spec a c); [subst; congruence|done].
Qed.

Lemma split_on_no_char c x : no_char c x = true → split_on c x = [x].
Proof.
  induction x as [|a x IH]; [done|]. simpl. intros [Ha Hx]%andb_prop.
  apply negb_true_iff in Ha. by rewrite Ha, IH.
Qed.

Lemma split_on_app c x y :
  no_char c x = true → split_on c (x +:+ String c y) = x :: split_on c y.
Proof.
  induction x as [|a x IH]; intros Hx; simpl.
  - by rewrite Ascii.eqb_refl.
  - apply andb_prop in Hx as [Ha Hx]. apply negb_true_iff in Ha. by rewrite Ha, IH.
Qed.

Lemma split_first_app c x y :
  no_char c x = true → split_first c (x +:+ String c y) = Some (x, y).
Proof.
  induction x as [|a x IH]; intros Hx; simpl.
  - by rewrite Ascii.eqb_refl.
  - apply andb_prop in Hx as [Ha Hx]. apply negb_true_iff in Ha. by rewrite Ha, IH.
Qed.

Lemma strip_prefix_app p s : strip_prefix p (p +:+ s) = Some s.
Proof. induction p as [|a p IH]; [done|]. simpl. by rewrite Ascii.eqb_refl. Qed.

#[export] Hint Rewrite str_app_assoc str_app_nil_r str_app_nil_l str_app_cons no_char_app : pyrw.

(** ** [str] on an [int] *)

Lemma string_of_uint_chars d : all_chars num_char (NilEmpty.string_of_uint d) = true.
Proof. induction d; simpl; auto. Qed.

Lemma py_str_Z_chars z : all_chars num_char (py_str_Z z) = true.
Proof.
  unfold py_str_Z, NilZero.string_of_int, NilZero.string_of_uint.
  destruct (Z.to_int z) as [d|d]; destruct d; simpl; auto using string_of_uint_chars.
Qed.

Lemma to_int_not_nil z : Z.to_int z ≠ Decimal.Pos Decimal.Nil ∧ Z.to_int z ≠ Decimal.Neg Decimal.Nil.
Proof.
  split; intros E; pose proof (DecimalZ.of_to z) as Hz; rewrite E in Hz; simpl in Hz;
    subst z; discriminate E.
Qed.

(** [int(str(z)) == z]. *)
Lemma parse_py_str_Z z : parse_int (py_str_Z z) = Some z.
Proof.
  unfold parse_int, py_str_Z. destruct (to_int_not_nil z).
  rewrite NilZero.isi by done. simpl. by rewrite DecimalZ.of_to.
Qed.

Lemma py_str_Z_nonempty z : py_str_Z z ≠ EmptyString.
Proof. intros E. pose proof (parse_py_str_Z z) as H. by rewrite E in H. Qed.

Lemma drop_space_num s : all_chars num_char s = true → drop_space s = s.
Proof.
  destruct s as [|a s]; [done|]. simpl. intros H.
  destruct a as [[] [] [] [] [] [] [] []]; simpl in *; done.
Qed.

Lemma py_str_Z_no_char c z : num_char c = false → no_char c (py_str_Z z) = true.
Proof. intros. apply all_chars_no_char; [done|apply py_str_Z_chars]. Qed.

#[export] Hint Resolve py_str_Z_chars py_str_Z_nonempty : pyfacts.

(** ** [sep.join] and the lines of a printout *)


Lemma no_char_join c sep xs :
  no_char c sep = true → Forall (λ x, no_char c x = true) xs → no_char c (py_join sep xs) = true.
Proof.
  intros Hsep Hxs. induction Hxs as [|x xs Hx Hxs IH]; [done|].
  destruct xs as [|y xs]; [done|].
  change (py_join sep (x :: y :: xs)) with (x +:+ sep +:+ py_join sep (y :: xs)).
  autorewrite with pyrw. by rewrite Hx, Hsep, IH.
Qed.

Lemma split_on_prefix c t x r rs :
  no_char c t = true → split_on c x = r :: rs → split_on c (t +:+ x) = (t +:+ r) :: rs.
Proof.
  intros Ht Hx. induction t as [|a t IH]; [done|]. simpl in Ht |- *.
  apply andb_prop in Ht as [Ha Ht]. apply negb_true_iff in Ha. by rewrite Ha, IH.
Qed.

(** Splitting [(c + t).join(s :: ss)] on [c] gives [s] and [t + x] for
    each [x] of [ss]. *)
Lemma split_on_join c t s ss :
  no_char c t = true → Forall (λ x, no_char c x = true) (s :: ss) →
  split_on c (py_join (String c t) (s :: ss)) = s :: (String.append t <$> ss).
Proof.
  intros Ht Hss. revert s Hss. induction ss as [|s' ss IH]; intros s Hss.
  - apply Forall_inv in Hss. by apply split_on_no_char.
  - apply Forall_cons in Hss as [Hs Hss]. simpl py_join.
    rewrite str_app_cons, split_on_app by done.
    by erewrite split_on_prefix by (done || apply IH, Hss).
Qed.

Lemma split_on_text xs :
  Forall (λ x, no_char newline x = true) xs →
  split_on newline (text_of_lines xs) = xs ++ [EmptyString].
Proof.
  induction 1 as [|x xs Hx Hxs IH]; [done|]. simpl.
  by rewrite split_on_app, IH.
Qed.

(** ** Each printed line reads back *)

Lemma parse_list_py_str_list l : parse_list (py_str_list l) = Some l.
Proof.
  unfold parse_list, py_str_list. rewrite strip_prefix_app. simpl.
  assert (Hall : Forall (λ x, all_chars num_char x = true) (py_str_Z <$> l)).
  { apply Forall_fmap, Forall_forall. intros. apply py_str_Z_chars. }
  rewrite split_first_app.
  2:{ apply no_char_join; [done|]. eapply Forall_impl; [apply Hall|].
      intros. by apply all_chars_no_char. }
  simpl. destruct l as [|z l]; [done|].
  rewrite decide_False.
  2:{ destruct l; simpl; [apply py_str_Z_nonempty|].
      apply str_app_nonempty, py_str_Z_nonempty. }
  rewrite fmap_cons, split_on_join.
  2: done.
  2:{ eapply Forall_impl; [apply Hall|]. intros. by apply all_chars_no_char. }
  simpl. rewrite drop_space_num, parse_py_str_Z by apply py_str_Z_chars. simpl.
  rewrite <- list_fmap_compose, mapM_fmap_Some; [done|].
  intros x. simpl. rewrite ?str_app_cons. simpl.
  apply parse_py_str_Z.
Qed.

Lemma parse_line_show_line i l : parse_line (show_line i l) = Some (i, l).
Proof.
  unfold parse_line, show_line. rewrite strip_prefix_app. simpl.
  rewrite str_app_cons, split_first_app by (apply py_str_Z_no_char; done). simpl.
  rewrite parse_py_str_Z. simpl.
  by rewrite str_app_nil_l, parse_list_py_str_list.
Qed.

(** ** Running [Graph.show] *)

Lemma py_print_run args out :
  py_print args out = (inr (), out +:+ text_of_lines [py_join " " args]).
Proof. done. Qed.

(** The prefix [l[a:a+k]] read by indices, when it is in range. *)
Lemma mapM_getitem_seq {A} (l : list A) a k :
  (a + k ≤ length l)%nat →
  mapM (λ i, l.[i]) (Z.of_nat <$> seq a k) = Some (take k (drop a l)).
Proof.
  revert a. induction k as [|k IH]; intros a Hk; [by rewrite take_0|].
  destruct (lookup_lt_is_Some_2 l a) as [x Hx]; [lia|].
  simpl. rewrite py_getitem_nonneg, Nat2Z.id, Hx by lia. simpl.
  rewrite IH by lia. by rewrite (drop_S l x a Hx).
Qed.

Lemma mapM_getitem_range {A} (l : list A) k :
  (k ≤ length l)%nat → mapM (λ i, l.[i]) (py_range (Z.of_nat k)) = Some (take k l).
Proof. intros. unfold py_range. rewrite Nat2Z.id, mapM_getitem_seq by lia. by rewrite drop_0. Qed.

Lemma show_lines_run g idx ls out :
  mapM (λ i, (adj g).[i]) idx = Some ls →
  show_lines g idx out = (inr (), out +:+ text_of_lines (zip_with show_line idx ls)).
Proof.
  revert ls out. induction idx as [|i idx IH]; intros ls out H; simpl in H.
  - simplify_eq. by rewrite str_app_nil_r.
  - destruct ((adj g).[i]) as [l|] eqn:Hi; simpl in H; [|done].
    destruct (mapM _ idx) as [ls'|] eqn:Hr; simpl in H; [|done]. injection H as <-.
    unfold py_print. pyrun. rewrite Hi. pyrun. rewrite (IH ls') by done.
    unfold text_of_lines. simpl. by autorewrite with pyrw.
Qed.

(** [show_lines] stops at the first index out of range, with the lines of
    the indices before it printed. *)
Lemma show_lines_raise g pre j post ls out :
  mapM (λ i, (adj g).[i]) pre = Some ls → (adj g).[j] = None →
  show_lines g (pre ++ j :: post) out =
    (inl IndexError, out +:+ text_of_lines (zip_with show_line pre ls)).
Proof.
  revert ls out. induction pre as [|i pre IH]; intros ls out H Hj; simpl in H.
  - simplify_eq. simpl. unfold mbind, PyM_bind. rewrite Hj. simpl. by rewrite str_app_nil_r.
  - destruct ((adj g).[i]) as [l|] eqn:Hi; simpl in H; [|done].
    destruct (mapM _ pre) as [ls'|] eqn:Hr; simpl in H; [|done]. injection H as <-.
    unfold py_print. pyrun. rewrite Hi. pyrun. rewrite (IH ls') by done.
    unfold text_of_lines. simpl. by autorewrite with pyrw.
Qed.


Lemma Graph_show_bind g out :
  Graph_show g out =
    (show_lines g (py_range (n g)) ≫= λ _, py_print [])
      (out +:+ text_of_lines [show_header g]).
Proof. done. Qed.

Lemma text_of_lines_app xs ys : text_of_lines (xs ++ ys) = text_of_lines xs +:+ text_of_lines ys.
Proof.
  induction xs as [|x xs IH]; [done|]. unfold text_of_lines in *. simpl.
  rewrite IH. by autorewrite with pyrw.
Qed.

Lemma py_range_to_nat k : py_range (Z.of_nat (Z.to_nat k)) = py_range k.
Proof. unfold py_range. by rewrite Nat2Z.id. Qed.

Lemma mapM_getitem_adj g :
  length (adj g) = Z.to_nat (n g) → mapM (λ i, (adj g).[i]) (py_range (n g)) = Some (adj g).
Proof.
  intros Hlen. rewrite <- py_range_to_nat, <- Hlen, mapM_getitem_range by done.
  by rewrite take_ge.
Qed.


Lemma Graph_show_ok g out :
  length (adj g) = Z.to_nat (n g) → Graph_show g out = (inr (), out +:+ show_text g).
Proof.
  intros Hlen. rewrite Graph_show_bind.
  erewrite py_bind_inr by (apply show_lines_run, mapM_getitem_adj, Hlen).
  unfold py_print, show_text. pyrun.
  rewrite text_of_lines_app. unfold text_of_lines. simpl.
  by autorewrite with pyrw.
Qed.

(** ** Reading [Graph.show]'s printout back *)

Lemma py_str_list_no_char c l :
  num_char c = false → no_char c ", " = true → no_char c "[" = true → no_char c "]" = true →
  no_char c (py_str_list l) = true.
Proof.
  intros Hc Hsep Hl Hr. unfold py_str_list. autorewrite with pyrw.
  rewrite Hl, Hr, no_char_join; [done|done|].
  apply Forall_fmap, Forall_forall. intros. by apply py_str_Z_no_char.
Qed.

Lemma show_line_no_newline i l : no_char newline (show_line i l) = true.
Proof.
  unfold show_line. autorewrite with pyrw.
  by rewrite py_str_Z_no_char, py_str_list_no_char.
Qed.

Lemma parse_header_show_header g : parse_header (show_header g) = Some (directed g).
Proof. unfold show_header, show_tipo. by destruct (directed g). Qed.

Lemma length_py_range k : length (py_range k) = Z.to_nat k.
Proof. unfold py_range. by rewrite length_fmap, length_seq. Qed.

Lemma mapM_parse_lines idx ls :
  mapM parse_line (zip_with show_line idx ls) = Some (zip idx ls).
Proof.
  rewrite zip_with_zip, (mapM_fmap_Some _ _ _); [done|].
  intros [i l]. apply parse_line_show_line.
Qed.

Lemma parse_show_text g :
  length (adj g) = Z.to_nat (n g) → parse_show (show_text g) = Some (directed g, adj g).
Proof.
  intros Hlen. unfold parse_show, show_text.
  rewrite split_on_text.
  2:{ constructor; [by destruct g as [? []]|]. apply Forall_app. split; [|by constructor].
      rewrite zip_with_zip. apply Forall_fmap, Forall_forall. intros [] _. apply show_line_no_newline. }
  simpl. rewrite parse_header_show_header. simpl.
  rewrite <- app_assoc, rev_app_distr. simpl. rewrite rev_involutive, mapM_parse_lines. simpl.
  assert (Hl : length (py_range (n g)) = length (adj g)) by (by rewrite length_py_range).
  rewrite length_zip, Hl, Nat.min_id, fst_zip, snd_zip by lia.
  rewrite decide_True; [done|]. by rewrite Hlen, py_range_to_nat.
Qed.

Lemma py_range_split k m :
  (k < Z.to_nat m)%nat → ∃ post, py_range m = py_range (Z.of_nat k) ++ Z.of_nat k :: post.
Proof.
  intros Hk. unfold py_range. rewrite Nat2Z.id.
  replace (Z.to_nat m) with (k + S (Z.to_nat m - S k))%nat by lia.
  rewrite seq_app, fmap_app. by eexists.
Qed.

(** ** The printout of [Graph.show] *)

(** C23: [Graph.show] on a graph with one adjacency list per vertex (every
    graph [__init__] and in-range [add_edge] calls build) raises nothing
    and prints a text from which the directedness and every adjacency
    list, in order, are read back: the printout determines the graph's
    [directed] flag and [adj]. *)
Theorem Graph_show_roundtrip g out :
  length (adj g) = Z.to_nat (n g) →
  ∃ s, Graph_show g out = (inr (), out +:+ s) ∧ parse_show s = Some (directed g, adj g).
Proof.
  intros Hlen. exists (show_text g). split.
  - by apply Graph_show_ok.
  - by apply parse_show_text.
Qed.

(** C24: when [adj] holds fewer lists than [n] (a graph whose [adj] was
    shortened outside [add_edge]), [Graph.show] prints the header and the
    lines of the vertices that have a list, then [self.adj[i]] raises
    [IndexError] and the closing empty line is never printed. *)
Theorem Graph_show_short_adj g out :
  (length (adj g) < Z.to_nat (n g))%nat →
  Graph_show g out =
    (inl IndexError,
     out +:+ text_of_lines (show_header g ::
               zip_with show_line (py_range (Z.of_nat (length (adj g)))) (adj g))).
Proof.
  intros Hlt. destruct (py_range_split _ _ Hlt) as [post Hr].
  rewrite Graph_show_bind, Hr. erewrite py_bind_inl.
  2:{ apply show_lines_raise.
      - rewrite mapM_getitem_range, take_ge by done. done.
      - apply py_getitem_None. lia. }
  unfold text_of_lines. simpl. by autorewrite with pyrw.
Qed.

(** ** Witnesses *)

Lemma Graph_show_roundtrip_witness :
  length (adj (mkGraph 3 true [[1; -2]; [2]; []])) = Z.to_nat (n (mkGraph 3 true [[1; -2]; [2]; []])) ∧
  ∃ s, Graph_show (mkGraph 3 true [[1; -2]; [2]; []]) EmptyString = (inr (), EmptyString +:+ s) ∧
       parse_show s = Some (true, [[1; -2]; [2]; []]).
Proof. split; [reflexivity|]. apply (Graph_show_roundtrip (mkGraph 3 true [[1; -2]; [2]; []])). reflexivity. Defined.

Lemma Graph_show_short_adj_witness :
  Nat.lt (length (adj (mkGraph 3 false [[1]; [0]]))) (Z.to_nat (n (mkGraph 3 false [[1]; [0]]))) ∧
  Graph_show (mkGraph 3 false [[1]; [0]]) EmptyString =
    (inl IndexError, "Grafo Não dirigido:" +:+ String newline ("  0 -> [1]" +:+ String newline
                       ("  1 -> [0]" +:+ String newline EmptyString))).
Proof.
  split; [simpl; lia|].
  rewrite (Graph_show_short_adj (mkGraph 3 false [[1]; [0]]) EmptyString) by (simpl; lia).
  vm_compute. reflexivity.
Defined.
