(* ===== verification/HamSpec.v ===== *)
(** * What the search promises: Hamiltonian paths and their enumeration

    [is_ham_path g p] is the spec's Path (spec.md section 3): exactly [n]
    distinct vertices of [[0, n)], consecutive ones joined by an edge in
    the stored direction ([path_edges], through [neighbors], the list the
    search reads).  It is decidable.

    [completions g k p v] is a pure reference for the backtracking search:
    the list of all extensions of the partial path [p] (ending in [v]) by
    [k] more vertices, in the order the code explores them (neighbours in
    stored order, skipping vertices already on the path); [all_ham_paths g]
    concatenates them over the start vertices [range(n)].  No state, no
    fuel, no exceptions: the search's stateful code is proved equal to the
    head of this list in [Search].  The theorems here are the reference's
    own soundness and completeness against [is_ham_path], and, in the
    Section [Client], the consequences of the interface [HamSearch] that
    any search returning the head of [all_ham_paths] satisfies. *)
From S2P Require Import Prelude Graph.

(** Consecutive vertices are joined by a stored edge. *)
Fixpoint path_edges (g : Graph) (p : list Z) : Prop :=
  match p with
  | a :: ((b :: _) as p') => b ∈ neighbors g a ∧ path_edges g p'
  | _ => True
  end.

#[export] Instance path_edges_dec g p : Decision (path_edges g p).
Proof.
  induction p as [|a p IH]; [apply _|]. destruct p as [|b p]; simpl in *; apply _.
Defined.

(** A partial path of the search: distinct vertices joined by edges. *)
Definition partial_ok (g : Graph) (p : list Z) : Prop :=
  NoDup p ∧ Forall (in_range g) p ∧ path_edges g p.

Definition is_ham_path (g : Graph) (p : list Z) : Prop :=
  Z.of_nat (length p) = n g ∧ partial_ok g p.

#[export] Instance is_ham_path_dec g p : Decision (is_ham_path g p).
Proof. unfold is_ham_path, partial_ok. apply _. Defined.

(** All extensions of [p] (whose last vertex is [v]) by [k] vertices. *)
Fixpoint completions (g : Graph) (k : nat) (p : list Z) (v : Z) : list (list Z) :=
  match k with
  | O => [p]
  | S k' =>
      neighbors g v ≫= λ w,
        if decide (w ∈ p) then [] else completions g k' (p ++ [w]) w
  end.

(** All Hamiltonian paths, by ascending start vertex, then in
    exploration order. *)
Definition all_ham_paths (g : Graph) : list (list Z) :=
  py_range (n g) ≫= λ s, completions g (Z.to_nat (n g) - 1) [s] s.

(** ** Lemmas on paths *)

Lemma path_edges_snoc g p v w :
  last p = Some v → path_edges g (p ++ [w]) ↔ path_edges g p ∧ w ∈ neighbors g v.
Proof.
  revert v. induction p as [|a p IH]; intros v Hl; [done|].
  destruct p as [|b p].
  - simpl in *. simplify_eq. tauto.
  - simpl in Hl. specialize (IH v Hl). simpl in *. rewrite IH. tauto.
Qed.

Lemma path_edges_app_inv g p q : path_edges g (p ++ q) → path_edges g p.
Proof.
  induction p as [|a p IH]; [done|]. destruct p as [|b p]; [intros; exact I|].
  intros [Hab H]. split; [done|]. by apply IH.
Qed.

Lemma partial_ok_snoc g p v w :
  last p = Some v → w ∉ p → in_range g w → w ∈ neighbors g v →
  partial_ok g p → partial_ok g (p ++ [w]).
Proof.
  intros Hl Hw Hr Hn (Hnd & Hall & He). split_and!.
  - apply NoDup_app. split_and!; [done| |by apply NoDup_singleton].
    intros x Hx ->%list_elem_of_singleton. done.
  - apply Forall_app. auto.
  - by apply path_edges_snoc with v.
Qed.

Lemma partial_ok_app_inv g p q : partial_ok g (p ++ q) → partial_ok g p.
Proof.
  intros (Hnd & Hall & He). split_and!.
  - by apply NoDup_app in Hnd as [? _].
  - by apply Forall_app in Hall as [? _].
  - by eapply path_edges_app_inv.
Qed.

Lemma last_in_range g p v : partial_ok g p → last p = Some v → in_range g v.
Proof.
  intros (_ & Hall & _) Hl%last_Some_elem_of. by eapply Forall_forall in Hall.
Qed.

#[export] Hint Resolve partial_ok_snoc partial_ok_app_inv last_in_range : pyfacts.
#[export] Hint Resolve last_snoc : pyfacts.

Lemma neighbors_in_range g v w : wf g → w ∈ neighbors g v → in_range g w.
Proof.
  intros [_ Hall] Hw. unfold neighbors, py_getitem in Hw.
  destruct (py_norm_index _ _) as [k|]; simpl in Hw; [|by apply elem_of_nil in Hw].
  destruct (adj g !! k) as [l|] eqn:Hl; simpl in Hw; [|by apply elem_of_nil in Hw].
  eapply Forall_forall; [|exact Hw]. by eapply Forall_lookup_1.
Qed.

#[export] Hint Resolve neighbors_in_range : pyfacts.

(** ** The reference enumeration *)

Lemma completions_extend g k p v q :
  q ∈ completions g k p v → ∃ r, q = p ++ r ∧ length r = k.
Proof.
  revert p v. induction k as [|k IH]; intros p v Hq; simpl in Hq.
  - apply list_elem_of_singleton in Hq as ->. exists []. by rewrite app_nil_r.
  - apply list_elem_of_bind in Hq as (w & Hq & _).
    case_decide; [by apply elem_of_nil in Hq|].
    destruct (IH _ _ Hq) as (r & -> & Hr). exists (w :: r).
    by rewrite <- app_assoc; simpl; rewrite Hr.
Qed.

Lemma completions_sound g k p v q :
  wf g → partial_ok g p → last p = Some v → q ∈ completions g k p v → partial_ok g q.
Proof.
  intros Hwf. revert p v. induction k as [|k IH]; intros p v Hp Hl Hq; simpl in Hq.
  - by apply list_elem_of_singleton in Hq as ->.
  - apply list_elem_of_bind in Hq as (w & Hq & Hw).
    case_decide; [by apply elem_of_nil in Hq|].
    eapply IH; [|apply last_snoc|exact Hq]. eauto with pyfacts.
Qed.

Lemma completions_complete g p v r :
  last p = Some v → partial_ok g (p ++ r) → p ++ r ∈ completions g (length r) p v.
Proof.
  revert p v. induction r as [|w r IH]; intros p v Hl Hp; simpl.
  - rewrite app_nil_r. by apply list_elem_of_singleton.
  - apply list_elem_of_bind. exists w.
    replace (p ++ w :: r) with ((p ++ [w]) ++ r) in * by (by rewrite <- app_assoc).
    pose proof (partial_ok_app_inv _ _ _ Hp) as (Hnd & _ & He).
    apply (path_edges_snoc g p v w Hl) in He as [_ Hw].
    split; [|done]. rewrite decide_False; [apply IH; [apply last_snoc|done]|].
    intros Hin. apply NoDup_app in Hnd as (_ & Hdis & _).
    by apply (Hdis w Hin), list_elem_of_singleton.
Qed.

Lemma partial_ok_singleton g s : in_range g s → partial_ok g [s].
Proof. intros Hs. split_and!; [apply NoDup_singleton|by apply Forall_singleton|done]. Qed.

#[export] Hint Resolve partial_ok_singleton : pyfacts.

Lemma all_ham_paths_pos g q : q ∈ all_ham_paths g → 0 < n g.
Proof. unfold all_ham_paths. intros (s & _ & ?%elem_of_py_range)%list_elem_of_bind. lia. Qed.

(** The reference enumerates exactly the Hamiltonian paths. *)
Lemma elem_of_all_ham_paths g q :
  wf g → 0 < n g → q ∈ all_ham_paths g ↔ is_ham_path g q.
Proof.
  intros Hwf Hn. unfold all_ham_paths. rewrite list_elem_of_bind. split.
  - intros (s & Hq & Hs%elem_of_py_range).
    assert (partial_ok g [s]) as Hs1 by eauto with pyfacts.
    split; [|by eapply completions_sound].
    apply completions_extend in Hq as (r & -> & Hr). rewrite length_app, Hr. simpl. lia.
  - intros [Hlen Hq]. destruct q as [|s r]; [simpl in Hlen; lia|].
    exists s. split.
    + replace (Z.to_nat (n g) - 1)%nat with (length r) by (simpl in Hlen; lia).
      by apply (completions_complete g [s] s r).
    + apply elem_of_py_range. destruct Hq as (_ & Hall & _). by apply Forall_inv in Hall.
Qed.

(** ** Paths through special vertices *)

Lemma path_edges_cons_inv g a p : path_edges g (a :: p) → path_edges g p.
Proof. destruct p; [done|]. by intros [_ ?]. Qed.

Lemma path_edges_app_r g p q : path_edges g (p ++ q) → path_edges g q.
Proof. induction p as [|a p IH]; [done|]. intros ?%path_edges_cons_inv. auto. Qed.

Lemma path_edges_lookup g p i a b :
  path_edges g p → p !! i = Some a → p !! S i = Some b → b ∈ neighbors g a.
Proof.
  revert i. induction p as [|c p IH]; intros i He Ha Hb; [done|].
  destruct i as [|i]; simpl in Ha, Hb.
  - simplify_eq. destruct p as [|d p]; [done|]. simpl in Hb. simplify_eq. by destruct He.
  - apply path_edges_cons_inv in He. eauto.
Qed.

(** A Hamiltonian path visits every vertex. *)
Lemma ham_path_covers g p x : is_ham_path g p → in_range g x → x ∈ p.
Proof.
  intros (Hlen & Hnd & Hall & _) Hx. apply list_elem_of_In.
  apply (NoDup_length_incl (l := p) (l' := py_range (n g))); [by apply NoDup_ListNoDup| | |].
  - unfold py_range. rewrite length_fmap, length_seq. lia.
  - intros y Hy%list_elem_of_In. apply list_elem_of_In, elem_of_py_range.
    by eapply Forall_forall in Hall.
  - by apply list_elem_of_In, elem_of_py_range.
Qed.

(** A vertex with no edge in or out lies on no path of two or more
    vertices. *)
Lemma isolated_not_on_path g p x :
  path_edges g p → x ∈ p → (2 ≤ length p)%nat →
  neighbors g x = [] → (∀ u, x ∉ neighbors g u) → False.
Proof.
  intros He Hx Hlen Hout Hin. apply list_elem_of_split in Hx as (a & b & ->).
  destruct b as [|y b].
  - destruct a as [|c a] using rev_ind; [simpl in Hlen; lia|].
    rewrite <- app_assoc in He. apply path_edges_app_r in He as [Hc _]. by apply (Hin c).
  - apply path_edges_app_r in He as [Hy _]. rewrite Hout in Hy. by apply elem_of_nil in Hy.
Qed.

(** ** Entries of a vertex's own list that name the vertex itself *)

Lemma list_bind_ext_in {A B} (l : list A) (f f' : A → list B) :
  (∀ x, x ∈ l → f x = f' x) → l ≫= f = l ≫= f'.
Proof.
  induction l as [|x l IH]; intros Hf; [done|]. rewrite !bind_cons, Hf by by left.
  f_equal. apply IH. intros y Hy. apply Hf. by right.
Qed.

(** Entries [x] of a list bound by a function that sends [x] to [] can be
    dropped. *)
Lemma bind_filter_self {B} (l : list Z) (f : Z → list B) x :
  f x = [] → l ≫= f = filter (λ w, w ≠ x) l ≫= f.
Proof.
  intros Hx. induction l as [|w l IH]; [done|]. rewrite filter_cons, bind_cons.
  case_decide as Hw; [by rewrite bind_cons, IH|]. assert (w = x) as -> by tauto.
  by rewrite Hx, IH.
Qed.

(** Two graphs whose in-range vertices have the same lists once the
    entries naming the vertex itself are removed have the same
    completions from a vertex on the path. *)
Lemma completions_self_inert g g' k p v :
  wf g → (∀ x, in_range g x →
            filter (λ w, w ≠ x) (neighbors g' x) = filter (λ w, w ≠ x) (neighbors g x)) →
  in_range g v → v ∈ p → completions g' k p v = completions g k p v.
Proof.
  intros Hwf Hsame. revert p v. induction k as [|k IH]; intros p v Hv Hp; [done|]. simpl.
  assert (Hself : ∀ g0, (if decide (v ∈ p) then [] else completions g0 k (p ++ [v]) v) = []).
  { intros. by rewrite decide_True. }
  rewrite (bind_filter_self (neighbors g' v) _ v), (bind_filter_self (neighbors g v) _ v)
    by apply Hself.
  rewrite Hsame by done. apply list_bind_ext_in. intros w Hw%list_elem_of_filter.
  destruct (decide (w ∈ p)); [done|]. apply IH; [|set_solver].
  by eapply neighbors_in_range, proj2.
Qed.

Lemma all_ham_paths_self_inert g g' :
  wf g → n g' = n g →
  (∀ x, in_range g x →
     filter (λ w, w ≠ x) (neighbors g' x) = filter (λ w, w ≠ x) (neighbors g x)) →
  all_ham_paths g' = all_ham_paths g.
Proof.
  intros Hwf Hn Hsame. unfold all_ham_paths. rewrite Hn.
  apply list_bind_ext_in. intros s Hs%elem_of_py_range.
  apply completions_self_inert; [done|done|done|by left].
Qed.

(** ** The search's contract *)

(** What a Hamiltonian-path search promises its callers: on a well-formed
    graph it raises nothing and returns the first path of [all_ham_paths]
    (or [None] when there is none).  [Search] proves that
    [hamiltonian_path] meets it; the lemmas below hold for any search that
    does. *)
Class HamSearch (search : Graph → exn + option (list Z)) : Prop :=
  search_first_path : ∀ g, wf g → search g = inr (head (all_ham_paths g)).

Section Client.
Context (search : Graph → exn + option (list Z)) `{!HamSearch search}.

Lemma ham_search_sound g p : wf g → search g = inr (Some p) → is_ham_path g p.
Proof.
  intros Hwf Hp. rewrite search_first_path in Hp by done.
  injection Hp as Hp%head_Some_elem_of.
  apply elem_of_all_ham_paths; [done|by eapply all_ham_paths_pos|done].
Qed.

Lemma ham_search_complete g p :
  wf g → 0 < n g → is_ham_path g p → ∃ q, search g = inr (Some q).
Proof.
  intros Hwf Hn Hp. rewrite search_first_path by done.
  apply (elem_of_all_ham_paths g p Hwf Hn) in Hp.
  destruct (all_ham_paths g) as [|q qs]; [by apply elem_of_nil in Hp|]. by exists q.
Qed.

Lemma ham_search_isolated g x :
  wf g → 1 < n g → in_range g x → neighbors g x = [] → Forall (λ l, x ∉ l) (adj g) →
  search g = inr None.
Proof.
  intros Hwf Hn Hx Hout Hin. rewrite search_first_path by done.
  destruct (all_ham_paths g) as [|p ps] eqn:E; [done|]. exfalso.
  assert (is_ham_path g p) as Hp
    by (apply elem_of_all_ham_paths; [done|lia|rewrite E; set_solver]).
  apply (isolated_not_on_path g p x); [by destruct Hp as (_ & _ & _ & ?)|
    by apply (ham_path_covers g)|destruct Hp; lia|done|].
  intros u Hu. destruct (neighbors_stored g u) as [Hnil|Hl].
  - rewrite Hnil in Hu. by apply elem_of_nil in Hu.
  - by eapply Forall_forall in Hin.
Qed.
End Client.
