(* ===== verification/Search.v ===== *)
(** * The search [hamiltonian_path] of src/main.py (lines 22-46)

    [SearchState] holds the two objects the inner function [backtrack]
    mutates: [visited] (a Python set, here a [gset Z]) and [path] (a
    Python list).  The set and list methods the code calls are
    [set_add], [set_remove] ([KeyError] when absent), [list_append] and
    [list_pop] ([IndexError] on an empty list).  [backtrack_loop] is the
    [for neighbor in graph.adj[v]] loop, parameterised by the recursive
    call; [backtrack] is the inner function, with recursion-depth fuel;
    [hamiltonian_path_loop] is the outer [for start in range(n)] loop,
    which builds a fresh state per start vertex.

    The theorems: a failed branch restores the state exactly, [visited]
    stays the set of [path]'s entries and [path] stays free of repetitions,
    so a returned path has [n] distinct entries (all on every graph); the
    fuel [Z.to_nat n] is never exhausted (on every graph); self-loops
    leave the result unchanged; on a well-formed graph the result is the
    first element of the reference enumeration [all_ham_paths] of
    [HamSpec], hence sound, complete and exception-free; the results the
    spec asks for on special graphs; and what the search does on graphs
    the code accepts but the spec forbids (an out-of-range target of a
    directed edge ends up on the returned path, a negative endpoint is
    read as another vertex). *)
From S2P Require Import Prelude Graph HamSpec.

Record SearchState := mkState { visited : gset Z; path : list Z }.

(** [visited.add(x)] *)
Definition set_add (x : Z) : PyM SearchState unit :=
  py_modify (λ st, mkState ({[x]} ∪ visited st) (path st)).

(** [visited.remove(x)] *)
Definition set_remove (x : Z) : PyM SearchState unit :=
  st ← py_get;
  if decide (x ∈ visited st) then py_put (mkState (visited st ∖ {[x]}) (path st))
  else mthrow KeyError.

(** [path.append(x)] *)
Definition list_append (x : Z) : PyM SearchState unit :=
  py_modify (λ st, mkState (visited st) (path st ++ [x])).

(** [path.pop()] *)
Definition list_pop : PyM SearchState Z :=
  st ← py_get;
  match last (path st) with
  | Some x => py_put (mkState (visited st) (removelast (path st)));; mret x
  | None => mthrow IndexError
  end.

(** The loop [for neighbor in graph.adj[v]: ...] of [backtrack], with
    [rec] the recursive call [backtrack(neighbor, visited, path)]. *)
Fixpoint backtrack_loop (rec : Z → PyM SearchState (option (list Z)))
    (nbrs : list Z) : PyM SearchState (option (list Z)) :=
  match nbrs with
  | [] => mret None
  | neighbor :: nbrs' =>
      st ← py_get;
      if decide (neighbor ∉ visited st) then
        set_add neighbor;;
        list_append neighbor;;
        result ← rec neighbor;
        if py_truthy result then mret result
        else
          set_remove neighbor;;
          list_pop;;
          backtrack_loop rec nbrs'
      else backtrack_loop rec nbrs'
  end.

(** [backtrack(v, visited, path)]; [fuel] bounds the recursion depth. *)
Fixpoint backtrack (g : Graph) (fuel : nat) (v : Z) : PyM SearchState (option (list Z)) :=
  match fuel with
  | O => mthrow OutOfFuel
  | S fuel' =>
      st ← py_get;
      if decide (Z.of_nat (length (path st)) = n g) then mret (Some (path st))
      else
        nbrs ← py_lift IndexError (adj g).[v];
        backtrack_loop (backtrack g fuel') nbrs
  end.

(** The loop [for start in range(n): ...]. *)
Fixpoint hamiltonian_path_loop (g : Graph) (fuel : nat) (starts : list Z)
    : exn + option (list Z) :=
  match starts with
  | [] => inr None
  | start :: starts' =>
      match backtrack g fuel start (mkState {[start]} [start]) with
      | (inl e, _) => inl e
      | (inr result, _) =>
          if py_truthy result then inr result
          else hamiltonian_path_loop g fuel starts'
      end
  end.

Definition hamiltonian_path_fuel (g : Graph) (fuel : nat) : exn + option (list Z) :=
  hamiltonian_path_loop g fuel (py_range (n g)).

(** [hamiltonian_path(graph)] *)
Definition hamiltonian_path (g : Graph) : exn + option (list Z) :=
  hamiltonian_path_fuel g (Z.to_nat (n g)).

(** The state after [visited.add(w); path.append(w)]. *)
Definition push_state (st : SearchState) (w : Z) : SearchState :=
  mkState ({[w]} ∪ visited st) (path st ++ [w]).

(** The state whose path is [p] and whose set holds its vertices. *)
Definition state_of (p : list Z) : SearchState := mkState (list_to_set p) p.

(** What a call returns when [qs] lists the completions it can reach. *)
Definition first_of (p : list Z) (qs : list (list Z)) : (exn + option (list Z)) * SearchState :=
  match qs with
  | [] => (inr None, state_of p)
  | q :: _ => (inr (Some q), state_of q)
  end.

(** ** Running the set and list operations *)

(** Undoing [visited.add(w); path.append(w)] on a set without [w]. *)
Lemma undo_run {A} V p w (k : PyM SearchState A) :
  w ∉ V →
  (set_remove w;; list_pop;; k) (mkState ({[w]} ∪ V) (p ++ [w])) = k (mkState V p).
Proof.
  intros Hw. unfold set_remove, list_pop. pyrun.
  rewrite decide_True by set_solver. simpl.
  rewrite last_snoc, removelast_last. simpl.
  replace (({[w]} ∪ V) ∖ {[w]}) with V by set_solver. done.
Qed.

Lemma backtrack_loop_visited rec w nbrs st :
  w ∈ visited st → backtrack_loop rec (w :: nbrs) st = backtrack_loop rec nbrs st.
Proof. intros Hw. simpl. pyrun. by rewrite decide_False by (intros []; done). Qed.

Lemma backtrack_loop_fresh rec w nbrs st :
  w ∉ visited st →
  backtrack_loop rec (w :: nbrs) st =
    match rec w (mkState ({[w]} ∪ visited st) (path st ++ [w])) with
    | (inl e, s) => (inl e, s)
    | (inr r, s) =>
        if py_truthy r then (inr r, s) else (set_remove w;; list_pop;; backtrack_loop rec nbrs) s
    end.
Proof.
  intros Hw. simpl. unfold mbind at 1, PyM_bind at 1. simpl. rewrite decide_True by done.
  unfold set_add, list_append. pyrun.
  destruct (rec _ _) as [[e|r] s]; [done|]. by destruct (py_truthy r).
Qed.

(** ** The backtracking invariant *)

Section Restore.
Context (rec : Z → PyM SearchState (option (list Z))).
Hypothesis rec_restores : ∀ w st r st',
  rec w st = (inr r, st') → py_truthy r = false → st' = st.

Lemma backtrack_loop_restores nbrs st r st' :
  backtrack_loop rec nbrs st = (inr r, st') → py_truthy r = false → st' = st.
Proof.
  revert st. induction nbrs as [|w nbrs IH]; intros st Hrun Hr.
  { simpl in Hrun. pyrun. by simplify_eq. }
  destruct (decide (w ∈ visited st)) as [Hw|Hw].
  { rewrite backtrack_loop_visited in Hrun by done. by apply IH. }
  rewrite backtrack_loop_fresh in Hrun by done.
  destruct (rec _ _) as [[e|r'] s] eqn:Hrec; [done|].
  destruct (py_truthy r') eqn:Hr'; [simplify_eq; congruence|].
  apply rec_restores in Hrec as ->; [|done].
  destruct st as [V p]; simpl in *.
  rewrite undo_run in Hrun by done. by apply IH.
Qed.
End Restore.

Lemma backtrack_S g fuel v st :
  backtrack g (S fuel) v st =
    if decide (Z.of_nat (length (path st)) = n g) then (inr (Some (path st)), st)
    else match (adj g).[v] with
         | Some nbrs => backtrack_loop (backtrack g fuel) nbrs st
         | None => (inl IndexError, st)
         end.
Proof. simpl. pyrun. case_decide; [done|]. by destruct ((adj g).[v]). Qed.

(** After a failed call the state is the one before the call. *)
Lemma backtrack_fail_restores g fuel v st r st' :
  backtrack g fuel v st = (inr r, st') → py_truthy r = false → st' = st.
Proof.
  revert v st r st'. induction fuel as [|fuel IH]; intros v st r st' Hrun Hr; [done|].
  rewrite backtrack_S in Hrun. case_decide; [by simplify_eq|].
  destruct ((adj g).[v]) as [nbrs|]; [|done].
  exact (backtrack_loop_restores _ IH _ _ _ _ Hrun Hr).
Qed.

(** A successful call returns the path list itself. *)
Lemma backtrack_success_alias g fuel v st r st' :
  backtrack g fuel v st = (inr r, st') → py_truthy r = true → r = Some (path st').
Proof.
  revert v st r st'. induction fuel as [|fuel IH]; intros v st r st' Hrun Hr; [done|].
  rewrite backtrack_S in Hrun. case_decide as Hlen; [by simplify_eq|]. clear Hlen.
  destruct ((adj g).[v]) as [nbrs|]; [|done].
  revert st Hrun. induction nbrs as [|w nbrs IHn]; intros st Hrun.
  { simpl in Hrun. pyrun. by simplify_eq. }
  destruct (decide (w ∈ visited st)) as [Hw|Hw].
  { rewrite backtrack_loop_visited in Hrun by done. by eapply IHn. }
  rewrite backtrack_loop_fresh in Hrun by done.
  destruct (backtrack g fuel w _) as [[e|r'] s] eqn:Hrec; [done|].
  destruct (py_truthy r') eqn:Hr'.
  - simplify_eq. by eapply IH.
  - apply backtrack_fail_restores in Hrec as ->; [|done].
    destruct st as [V p]. rewrite undo_run in Hrun by done. by eapply IHn.
Qed.


Section LoopNoExn.
Context (rec : Z → PyM SearchState (option (list Z))) (st0 : SearchState) (e : exn).
Hypothesis rec_restores : ∀ w st r st',
  rec w st = (inr r, st') → py_truthy r = false → st' = st.
Hypothesis rec_no_exn : ∀ w s, rec w (push_state st0 w) ≠ (inl e, s).

Lemma backtrack_loop_no_exn nbrs s : backtrack_loop rec nbrs st0 ≠ (inl e, s).
Proof.
  revert s. induction nbrs as [|w nbrs IH]; intros s; [done|].
  destruct (decide (w ∈ visited st0)) as [Hw|Hw].
  { by rewrite !backtrack_loop_visited. }
  rewrite !backtrack_loop_fresh by done. fold (push_state st0 w).
  destruct (rec w _) as [[e'|r] s'] eqn:Hrec.
  { intros Heq. simplify_eq. by eapply rec_no_exn. }
  destruct (py_truthy r) eqn:Hr; [done|].
  apply rec_restores in Hrec as ->; [|done].
  destruct st0 as [V p]. unfold push_state. simpl. by rewrite !undo_run.
Qed.
End LoopNoExn.

(** With more than [n - len(path)] fuel the fuel never runs out. *)
Lemma backtrack_no_out_of_fuel g fuel v st s :
  (Z.to_nat (n g) - length (path st) < fuel)%nat → Z.of_nat (length (path st)) ≤ n g →
  backtrack g fuel v st ≠ (inl OutOfFuel, s).
Proof.
  revert v st s. induction fuel as [|fuel IH]; intros v st s Hf Hle; [lia|].
  rewrite backtrack_S. case_decide; [done|].
  destruct ((adj g).[v]) as [nbrs|]; [|done].
  apply backtrack_loop_no_exn.
  - intros w st1 r st'. apply backtrack_fail_restores.
  - intros w s'. apply IH; unfold push_state; simpl; rewrite length_app; simpl; lia.
Qed.

(** ** [visited] and [path] stay in sync, on every graph *)

(** [visited == set(path)] and [path] has no repeated entry. *)
Definition sync (st : SearchState) : Prop :=
  visited st = list_to_set (path st) ∧ NoDup (path st).

Lemma sync_push st w : sync st → w ∉ visited st → sync (push_state st w).
Proof.
  intros [Hv Hnd] Hw. unfold push_state, sync; simpl. rewrite list_to_set_app_L, Hv. split.
  - set_solver.
  - apply NoDup_app. split_and!; [done| |apply NoDup_singleton].
    intros x Hx ->%list_elem_of_singleton. apply Hw. rewrite Hv. set_solver.
Qed.

(** The step [visited.remove(w); path.pop()] followed by [k]: when it
    succeeds, what [k] does from some state. *)
Lemma undo_then {A} w (k : PyM SearchState A) s r s' :
  (set_remove w;; list_pop;; k) s = (inr r, s') → ∃ s'', k s'' = (inr r, s').
Proof.
  unfold set_remove, list_pop. pyrun. case_decide; pyrun; [|done].
  destruct (last _); pyrun; [eauto|done].
Qed.

Section LoopSync.
Context (rec : Z → PyM SearchState (option (list Z))).
Hypothesis rec_restores : ∀ w st r st',
  rec w st = (inr r, st') → py_truthy r = false → st' = st.
Hypothesis rec_sync : ∀ w st res st', sync st → rec w st = (res, st') → sync st'.

Lemma backtrack_loop_sync nbrs st res st' :
  sync st → backtrack_loop rec nbrs st = (res, st') → sync st'.
Proof.
  revert st. induction nbrs as [|w nbrs IH]; intros st Hs Hrun.
  { simpl in Hrun. pyrun. by simplify_eq. }
  destruct (decide (w ∈ visited st)) as [Hw|Hw].
  { rewrite backtrack_loop_visited in Hrun by done. by eapply IH. }
  rewrite backtrack_loop_fresh in Hrun by done. fold (push_state st w) in Hrun.
  destruct (rec w _) as [[e|r] s] eqn:Hrec.
  { simplify_eq. by eapply rec_sync, Hrec; apply sync_push. }
  destruct (py_truthy r) eqn:Hr.
  { simplify_eq. by eapply rec_sync, Hrec; apply sync_push. }
  apply rec_restores in Hrec as ->; [|done].
  destruct st as [V p]. unfold push_state in Hrun. simpl in Hrun.
  rewrite undo_run in Hrun by done. by eapply IH.
Qed.
End LoopSync.

Section LoopResult.
Context (rec : Z → PyM SearchState (option (list Z))) (Q : option (list Z) → Prop).
Hypothesis rec_result : ∀ w st r st', rec w st = (inr r, st') → py_truthy r = true → Q r.

(** A truthy result of the loop is the result of a recursive call. *)
Lemma backtrack_loop_result nbrs st r st' :
  backtrack_loop rec nbrs st = (inr r, st') → py_truthy r = true → Q r.
Proof.
  revert st. induction nbrs as [|w nbrs IH]; intros st Hrun Hr.
  { simpl in Hrun. pyrun. by simplify_eq. }
  destruct (decide (w ∈ visited st)) as [Hw|Hw].
  { rewrite backtrack_loop_visited in Hrun by done. by eapply IH. }
  rewrite backtrack_loop_fresh in Hrun by done.
  destruct (rec w _) as [[e|r'] s] eqn:Hrec; [done|].
  destruct (py_truthy r') eqn:Hr'.
  - simplify_eq. by eapply rec_result.
  - apply undo_then in Hrun as [s'' Hrun]. by eapply IH.
Qed.
End LoopResult.

(** [backtrack] returns a truthy result only from [if len(path) == n:
    return path]: a list of length [n]. *)
Lemma backtrack_result_length g fuel v st r st' :
  backtrack g fuel v st = (inr r, st') → py_truthy r = true →
  ∃ q, r = Some q ∧ Z.of_nat (length q) = n g.
Proof.
  revert v st r st'. induction fuel as [|fuel IH]; intros v st r st' Hrun Hr; [done|].
  rewrite backtrack_S in Hrun. case_decide as Hlen; [simplify_eq; eauto|].
  destruct ((adj g).[v]) as [nbrs|]; [|done].
  refine (backtrack_loop_result (backtrack g fuel) (λ r, ∃ q, r = Some q ∧ Z.of_nat (length q) = n g) _ nbrs st r st' Hrun Hr).
  intros w st1 r1 st1'. apply IH.
Qed.

Lemma backtrack_sync g fuel v st res st' :
  sync st → backtrack g fuel v st = (res, st') → sync st'.
Proof.
  revert v st res st'. induction fuel as [|fuel IH]; intros v st res st' Hs Hrun.
  { simpl in Hrun. pyrun. by simplify_eq. }
  rewrite backtrack_S in Hrun. case_decide; [by simplify_eq|].
  destruct ((adj g).[v]) as [nbrs|]; [|by simplify_eq].
  eapply backtrack_loop_sync; [|exact IH|exact Hs|exact Hrun].
  intros w st1 r st1'. apply backtrack_fail_restores.
Qed.

Lemma sync_start s : sync (mkState {[s]} [s]).
Proof. split; simpl; [set_solver|apply NoDup_singleton]. Qed.

(** A path the start loop returns comes from a successful [backtrack]
    from a start vertex. *)
Lemma hamiltonian_path_loop_result g fuel starts p :
  hamiltonian_path_loop g fuel starts = inr (Some p) →
  ∃ s st', backtrack g fuel s (mkState {[s]} [s]) = (inr (Some p), st') ∧ p ≠ [].
Proof.
  induction starts as [|s starts IH]; [done|]. cbn [hamiltonian_path_loop].
  destruct (backtrack g fuel s _) as [[e|r] st'] eqn:Hrun; [done|].
  destruct (py_truthy r) eqn:Hr; [|done]. intros [= ->]. exists s, st'.
  split; [done|]. by apply py_truthy_nonempty.
Qed.

(** ** The search computes the head of the reference enumeration *)



Lemma push_state_of p w : push_state (state_of p) w = state_of (p ++ [w]).
Proof.
  unfold push_state, state_of. simpl. f_equal. rewrite list_to_set_snoc_L. set_solver.
Qed.

Lemma completions_nonempty g k p v q : p ≠ [] → q ∈ completions g k p v → q ≠ [].
Proof.
  intros Hp (r & -> & _)%completions_extend. destruct p; [done|]. simpl. done.
Qed.

Section Correct.
Context (g : Graph) (Hwf : wf g).

Lemma backtrack_loop_spec k f p v nbrs :
  (∀ p' w, length p' = S (length p) → partial_ok g p' → last p' = Some w →
     backtrack g f w (state_of p') = first_of p' (completions g k p' w)) →
  partial_ok g p → last p = Some v → (∀ w, w ∈ nbrs → w ∈ neighbors g v) →
  backtrack_loop (backtrack g f) nbrs (state_of p) =
    first_of p (nbrs ≫= λ w, if decide (w ∈ p) then [] else completions g k (p ++ [w]) w).
Proof.
  intros Hrec Hp Hl. induction nbrs as [|w nbrs IH]; intros Hn; [done|].
  rewrite bind_cons.
  destruct (decide (w ∈ p)) as [Hw|Hw].
  { rewrite backtrack_loop_visited by (simpl; set_solver). apply IH. set_solver. }
  rewrite backtrack_loop_fresh by (simpl; set_solver). fold (push_state (state_of p) w).
  rewrite push_state_of, Hrec; [|rewrite length_app; simpl; lia|eauto with pyfacts set_solver..].
  destruct (completions g k (p ++ [w]) w) as [|q qs] eqn:Hq; simpl.
  - unfold state_of at 1. rewrite list_to_set_snoc_L, (union_comm_L _ {[w]}).
    rewrite undo_run by set_solver. apply IH. set_solver.
  - assert (q ≠ []) as Hq0.
    { apply (completions_nonempty g k (p ++ [w]) w); [by destruct p|]. rewrite Hq. set_solver. }
    by destruct q.
Qed.

Lemma backtrack_spec k fuel p v :
  (k < fuel)%nat → (length p + k)%nat = Z.to_nat (n g) → p ≠ [] →
  partial_ok g p → last p = Some v →
  backtrack g fuel v (state_of p) = first_of p (completions g k p v).
Proof.
  revert fuel p v. induction k as [|k IH]; intros [|f] p v Hf Hlen Hp Hok Hl; [lia| |lia|].
  all: rewrite backtrack_S; cbn [path state_of].
  - rewrite decide_True; [done|]. destruct p; [done|]. simpl in *. lia.
  - rewrite decide_False by lia.
    rewrite (getitem_neighbors g v Hwf) by eauto with pyfacts. cbn [completions].
    apply (backtrack_loop_spec k f p v); [|done|done|done].
    intros p' w Hlen' Hok' Hl'. apply IH; [lia|lia| |done|done].
    by destruct p'.
Qed.
End Correct.

Lemma start_state s : mkState {[s]} [s] = state_of [s].
Proof. unfold state_of. by rewrite list_to_set_singleton_L. Qed.

Lemma hamiltonian_path_loop_spec g starts :
  wf g → Forall (in_range g) starts →
  hamiltonian_path_loop g (Z.to_nat (n g)) starts =
    inr (head (starts ≫= λ s, completions g (Z.to_nat (n g) - 1) [s] s)).
Proof.
  intros Hwf. induction starts as [|s starts IH]; intros Hs; [done|].
  apply Forall_cons in Hs as [Hs Hss]. cbn [hamiltonian_path_loop]. rewrite bind_cons.
  rewrite start_state, (backtrack_spec g Hwf (Z.to_nat (n g) - 1)); simpl;
    [|unfold in_range in Hs; lia..|done|eauto with pyfacts|done].
  destruct (completions g _ [s] s) as [|q qs] eqn:Hq; simpl; [by apply IH|].
  assert (q ≠ []) as Hq0.
  { apply (completions_nonempty g (Z.to_nat (n g) - 1) [s] s); [done|]. rewrite Hq. set_solver. }
  by destruct q.
Qed.

(** One vertex: the guard [len(path) == n] returns [[0]] before [adj] is
    read. *)
Lemma search_single_vertex g : n g = 1 → hamiltonian_path g = inr (Some [0]).
Proof.
  intros Hn. unfold hamiltonian_path, hamiltonian_path_fuel. rewrite Hn.
  change (py_range 1) with [0]. change (Z.to_nat 1) with 1%nat.
  cbn [hamiltonian_path_loop]. rewrite backtrack_S, decide_True by (simpl; lia). done.
Qed.

(** ** Properties of [hamiltonian_path] *)

Lemma search_spec g : wf g → hamiltonian_path g = inr (head (all_ham_paths g)).
Proof.
  intros Hwf. apply hamiltonian_path_loop_spec; [done|].
  apply Forall_forall. intros s Hs%elem_of_py_range. done.
Qed.

(** [hamiltonian_path] meets the contract of [HamSpec]. *)
#[export] Instance hamiltonian_path_search : HamSearch hamiltonian_path.
Proof. exact search_spec. Qed.

(** C1: On a well-formed graph, [hamiltonian_path] raises nothing and
    returns the first Hamiltonian path of the reference enumeration
    [all_ham_paths] (ascending start vertex, then stored neighbour order),
    or [None] when the enumeration is empty: the stateful backtracking
    with its in-place [visited]/[path] updates computes exactly the head
    of the pure search. *)
Theorem hamiltonian_path_first g :
  wf g → hamiltonian_path g = inr (head (all_ham_paths g)).
Proof. apply search_spec. Qed.

(** C2: Soundness: on a well-formed graph every path the search returns
    has [n] distinct vertices of [[0, n)], consecutive ones joined by a
    stored edge. *)
Theorem hamiltonian_path_sound g p :
  wf g → hamiltonian_path g = inr (Some p) → is_ham_path g p.
Proof. apply ham_search_sound, _. Qed.

(** C3: Completeness: on a well-formed graph with at least one vertex
    that has a Hamiltonian path, the search returns a path. *)
Theorem hamiltonian_path_complete g p :
  wf g → 0 < n g → is_ham_path g p → ∃ q, hamiltonian_path g = inr (Some q).
Proof. apply ham_search_complete, _. Qed.

Lemma hamiltonian_path_loop_no_out_of_fuel g starts :
  Forall (in_range g) starts → hamiltonian_path_loop g (Z.to_nat (n g)) starts ≠ inl OutOfFuel.
Proof.
  induction starts as [|s starts IH]; intros Hs; [done|].
  apply Forall_cons in Hs as [Hs Hss]. unfold in_range in Hs. cbn [hamiltonian_path_loop].
  destruct (backtrack g _ s _) as [[e|r] st] eqn:Hrun.
  - intros [= ->]. eapply backtrack_no_out_of_fuel; [| |exact Hrun]; simpl; lia.
  - destruct (py_truthy r); [done|]. by apply IH.
Qed.

(** C4: A failed call of [backtrack] (a result that is [None] or
    otherwise false) leaves [visited] and [path] exactly as they were
    before the call, and a successful one returns the list object [path]
    itself, on every graph and with any fuel. *)
Theorem backtrack_restores g fuel v st r st' :
  backtrack g fuel v st = (inr r, st') →
  (py_truthy r = false → st' = st) ∧ (py_truthy r = true → r = Some (path st')).
Proof.
  intros Hrun. split.
  - by eapply backtrack_fail_restores.
  - by eapply backtrack_success_alias.
Qed.

(** C5: Termination: on every graph the fuel [Z.to_nat n] given to
    [backtrack] is never exhausted. *)
Theorem hamiltonian_path_never_out_of_fuel g : hamiltonian_path g ≠ inl OutOfFuel.
Proof.
  apply hamiltonian_path_loop_no_out_of_fuel, Forall_forall.
  intros s Hs%elem_of_py_range. done.
Qed.

(** C14: Absence correctness: on a well-formed graph with more than one
    vertex, a vertex with no outgoing edge ([adj[x]] empty) and no
    incoming edge ([x] in no list [adj[u]]) makes the search return
    [None]. *)
Theorem hamiltonian_path_isolated g x :
  wf g → 1 < n g → in_range g x → neighbors g x = [] → Forall (λ l, x ∉ l) (adj g) →
  hamiltonian_path g = inr None.
Proof. apply ham_search_isolated, _. Qed.

(** C16: With one vertex the search returns [[0]] whatever the adjacency
    lists hold. *)
Theorem hamiltonian_path_single_vertex g : n g = 1 → hamiltonian_path g = inr (Some [0]).
Proof. apply search_single_vertex. Qed.

(** C17: With no vertex the search returns [None], although the empty list
    is a Hamiltonian path of that graph (the spec's empty-path sentinel
    is not what the code returns). *)
Theorem hamiltonian_path_no_vertex g : n g = 0 → hamiltonian_path g = inr None ∧ is_ham_path g [].
Proof.
  intros Hn. split.
  - unfold hamiltonian_path, hamiltonian_path_fuel. by rewrite Hn.
  - split; [by rewrite Hn|]. split_and!; [constructor|constructor|done].
Qed.

(** C11: On a directed graph built by in-range [add_edge] calls, every
    step [p[i] -> p[i+1]] of a returned path is an inserted edge, in its
    inserted direction. *)
Theorem hamiltonian_path_directed_edges n0 es g p :
  edges_in_range n0 es → add_edges es (Graph_init n0 true) = (inr (), g) →
  hamiltonian_path g = inr (Some p) →
  ∀ i a b, p !! i = Some a → p !! S i = Some b → (a, b) ∈ es.
Proof.
  intros Hes Hg Hp i a b Ha Hb. rewrite add_edges_built in Hg by done.
  injection Hg as <-.
  pose proof (built_graph_wf n0 true es Hes) as Hwf.
  destruct (ham_search_sound _ _ _ Hwf Hp) as (_ & _ & Hall & He).
  pose proof (path_edges_lookup _ _ _ _ _ He Ha Hb) as Hab.
  rewrite built_graph_neighbors in Hab.
  - by apply elem_of_adj_spec in Hab as [?|[? _]].
  - apply list_elem_of_lookup_2 in Ha. by eapply Forall_forall in Hall.
Qed.

(** C22: [add_edge] does not check the target of a directed edge, and the
    search does not check the vertices it reaches: on a two-vertex directed
    graph whose only edge goes from [0] to a [v] outside [[0, 2)], the
    search returns [[0, v]], a "path" through a vertex that does not
    exist; for [v = -2], which [graph.adj[-2]] reads as vertex [0], the
    path names vertex [0] twice. *)
Theorem directed_out_of_range_on_path v :
  ¬ (0 ≤ v < 2) → hamiltonian_path (add_edge 0 v (Graph_init 2 true)).2 = inr (Some [0; v]).
Proof.
  intros Hv.
  change ((add_edge 0 v (Graph_init 2 true)).2) with (mkGraph 2 true [[v]; []]).
  unfold hamiltonian_path, hamiltonian_path_fuel.
  change (py_range _) with [0; 1]. change (Z.to_nat _) with 2%nat.
  cbn [hamiltonian_path_loop]. rewrite backtrack_S, decide_False by (simpl; lia).
  change ((adj _).[0]) with (Some [v]). cbv iota beta.
  rewrite backtrack_loop_fresh by (simpl; set_solver by lia).
  rewrite backtrack_S, decide_True by (simpl; lia). done.
Qed.

(** C6: On every graph, well-formed or not, a path the search returns has
    exactly [n] entries, none repeated: the only [return path] is guarded
    by [len(path) == n], and a neighbour is appended only when it is not
    in [visited], which always holds the entries of [path].  (The entries
    are values read from [adj], not necessarily vertices: C22.) *)
Theorem hamiltonian_path_length_nodup g p :
  hamiltonian_path g = inr (Some p) → Z.of_nat (length p) = n g ∧ NoDup p.
Proof.
  intros (s & st' & Hrun & Hp)%hamiltonian_path_loop_result.
  destruct (backtrack_result_length _ _ _ _ _ _ Hrun) as (q & [= <-] & Hlen);
    [by apply py_truthy_nonempty|].
  split; [done|].
  assert (Some p = Some (path st')) as [= ->]
    by (eapply backtrack_success_alias; [exact Hrun|by apply py_truthy_nonempty]).
  by apply (backtrack_sync _ _ _ _ _ _ (sync_start s)) in Hrun as [_ Hnd].
Qed.

(** C7: On every graph and with any fuel, [backtrack] keeps [visited]
    equal to the set of the entries of [path] and [path] free of
    repetitions, whatever it returns or raises. *)
Theorem backtrack_keeps_sync g fuel v st res st' :
  sync st → backtrack g fuel v st = (res, st') → sync st'.
Proof. apply backtrack_sync. Qed.

(** C15: Self-loops are inert, as the spec says: on a well-formed graph,
    [add_edge(u, u)] for a vertex [u] raises nothing and leaves the
    search's result unchanged, because the loop over [graph.adj[v]] finds
    [v] itself already in [visited]. *)
Theorem hamiltonian_path_self_loop g u :
  wf g → in_range g u →
  ∃ g', add_edge u u g = (inr (), g') ∧ hamiltonian_path g' = hamiltonian_path g.
Proof.
  intros Hwf Hu. destruct (add_edge_self_loop g u Hwf Hu) as (g' & Hg & Hwf' & Hn & Hsame).
  exists g'. split; [done|]. rewrite !search_spec by done.
  by rewrite (all_ham_paths_self_inert g g').
Qed.

(** ** Witnesses: the properties at concrete graphs *)

Lemma hamiltonian_path_first_witness :
  wf (mkGraph 3 false [[1]; [0; 2]; [1]]) ∧
  hamiltonian_path (mkGraph 3 false [[1]; [0; 2]; [1]]) =
    inr (head (all_ham_paths (mkGraph 3 false [[1]; [0; 2]; [1]]))).
Proof.
  assert (Hw : wf (mkGraph 3 false [[1]; [0; 2]; [1]])) by compute_decide.
  split; [exact Hw|exact (hamiltonian_path_first _ Hw)].
Defined.

Lemma hamiltonian_path_sound_witness :
  wf (mkGraph 3 false [[1]; [0; 2]; [1]]) ∧
  hamiltonian_path (mkGraph 3 false [[1]; [0; 2]; [1]]) = inr (Some [0; 1; 2]) ∧
  is_ham_path (mkGraph 3 false [[1]; [0; 2]; [1]]) [0; 1; 2].
Proof.
  assert (Hw : wf (mkGraph 3 false [[1]; [0; 2]; [1]])) by compute_decide.
  assert (Hr : hamiltonian_path (mkGraph 3 false [[1]; [0; 2]; [1]]) = inr (Some [0; 1; 2]))
    by (vm_compute; reflexivity).
  split; [exact Hw|split; [exact Hr|exact (hamiltonian_path_sound _ _ Hw Hr)]].
Defined.

Lemma hamiltonian_path_complete_witness :
  wf (mkGraph 3 false [[1]; [0; 2]; [1]]) ∧ 0 < n (mkGraph 3 false [[1]; [0; 2]; [1]]) ∧
  is_ham_path (mkGraph 3 false [[1]; [0; 2]; [1]]) [2; 1; 0] ∧
  ∃ q, hamiltonian_path (mkGraph 3 false [[1]; [0; 2]; [1]]) = inr (Some q).
Proof.
  assert (Hw : wf (mkGraph 3 false [[1]; [0; 2]; [1]])) by compute_decide.
  assert (Hn : 0 < n (mkGraph 3 false [[1]; [0; 2]; [1]])) by (simpl; lia).
  assert (Hp : is_ham_path (mkGraph 3 false [[1]; [0; 2]; [1]]) [2; 1; 0]) by compute_decide.
  split; [exact Hw|split; [exact Hn|split; [exact Hp|exact (hamiltonian_path_complete _ _ Hw Hn Hp)]]].
Defined.

Lemma backtrack_restores_witness :
  backtrack (mkGraph 3 false [[1]; [0]; []]) 3 0 (mkState {[0]} [0]) = (inr None, mkState {[0]} [0]) ∧
  (py_truthy (@None (list Z)) = false → mkState {[0]} [0] = mkState {[0]} [0]) ∧
  (py_truthy (@None (list Z)) = true → None = Some (path (mkState {[0]} [0]))).
Proof.
  assert (Hr : backtrack (mkGraph 3 false [[1]; [0]; []]) 3 0 (mkState {[0]} [0]) =
    (inr None, mkState {[0]} [0])) by (vm_compute; reflexivity).
  split; [exact Hr|exact (backtrack_restores _ _ _ _ _ _ Hr)].
Defined.

Lemma hamiltonian_path_directed_edges_witness :
  edges_in_range 4 [(0, 1); (1, 2); (2, 3); (0, 2)] ∧
  add_edges [(0, 1); (1, 2); (2, 3); (0, 2)] (Graph_init 4 true) =
    (inr (), mkGraph 4 true [[1; 2]; [2]; [3]; []]) ∧
  hamiltonian_path (mkGraph 4 true [[1; 2]; [2]; [3]; []]) = inr (Some [0; 1; 2; 3]) ∧
  ∀ i a b, [0; 1; 2; 3] !! i = Some a → [0; 1; 2; 3] !! S i = Some b →
    (a, b) ∈ [(0, 1); (1, 2); (2, 3); (0, 2)].
Proof.
  assert (He : edges_in_range 4 [(0, 1); (1, 2); (2, 3); (0, 2)]) by compute_decide.
  assert (Hg : add_edges [(0, 1); (1, 2); (2, 3); (0, 2)] (Graph_init 4 true) =
    (inr (), mkGraph 4 true [[1; 2]; [2]; [3]; []])) by (vm_compute; reflexivity).
  assert (Hp : hamiltonian_path (mkGraph 4 true [[1; 2]; [2]; [3]; []]) = inr (Some [0; 1; 2; 3]))
    by (vm_compute; reflexivity).
  split; [exact He|split; [exact Hg|split; [exact Hp|]]].
  exact (hamiltonian_path_directed_edges _ _ _ _ He Hg Hp).
Defined.

Lemma hamiltonian_path_isolated_witness :
  wf (mkGraph 3 false [[1]; [0]; []]) ∧ 1 < n (mkGraph 3 false [[1]; [0]; []]) ∧
  in_range (mkGraph 3 false [[1]; [0]; []]) 2 ∧ neighbors (mkGraph 3 false [[1]; [0]; []]) 2 = [] ∧
  Forall (λ l, 2 ∉ l) (adj (mkGraph 3 false [[1]; [0]; []])) ∧
  hamiltonian_path (mkGraph 3 false [[1]; [0]; []]) = inr None.
Proof.
  assert (Hw : wf (mkGraph 3 false [[1]; [0]; []])) by compute_decide.
  assert (Hn : 1 < n (mkGraph 3 false [[1]; [0]; []])) by (simpl; lia).
  assert (Hx : in_range (mkGraph 3 false [[1]; [0]; []]) 2) by compute_decide.
  assert (Ho : neighbors (mkGraph 3 false [[1]; [0]; []]) 2 = []) by reflexivity.
  assert (Hi : Forall (λ l, 2 ∉ l) (adj (mkGraph 3 false [[1]; [0]; []]))) by compute_decide.
  split; [exact Hw|split; [exact Hn|split; [exact Hx|split; [exact Ho|split; [exact Hi|]]]]].
  exact (hamiltonian_path_isolated _ 2 Hw Hn Hx Ho Hi).
Defined.

Lemma hamiltonian_path_single_vertex_witness :
  n (mkGraph 1 false [[0]]) = 1 ∧ hamiltonian_path (mkGraph 1 false [[0]]) = inr (Some [0]).
Proof.
  assert (Hn : n (mkGraph 1 false [[0]]) = 1) by reflexivity.
  split; [exact Hn|exact (hamiltonian_path_single_vertex _ Hn)].
Defined.

Lemma hamiltonian_path_no_vertex_witness :
  n (mkGraph 0 false []) = 0 ∧
  hamiltonian_path (mkGraph 0 false []) = inr None ∧ is_ham_path (mkGraph 0 false []) [].
Proof.
  assert (Hn : n (mkGraph 0 false []) = 0) by reflexivity.
  split; [exact Hn|exact (hamiltonian_path_no_vertex _ Hn)].
Defined.

Lemma directed_out_of_range_on_path_witness :
  ¬ (0 ≤ 5 < 2) ∧ hamiltonian_path (add_edge 0 5 (Graph_init 2 true)).2 = inr (Some [0; 5]).
Proof.
  assert (Hv : ¬ (0 ≤ 5 < 2)) by lia.
  split; [exact Hv|exact (directed_out_of_range_on_path 5 Hv)].
Defined.

Lemma hamiltonian_path_length_nodup_witness :
  hamiltonian_path (add_edges [(0, -1)] (Graph_init 3 false)).2 = inr (Some [2; 0; -1]) ∧
  Z.of_nat (length [2; 0; -1]) = n (add_edges [(0, -1)] (Graph_init 3 false)).2 ∧ NoDup [2; 0; -1].
Proof.
  assert (H : hamiltonian_path (add_edges [(0, -1)] (Graph_init 3 false)).2 = inr (Some [2; 0; -1]))
    by (vm_compute; reflexivity).
  split; [exact H|exact (hamiltonian_path_length_nodup _ _ H)].
Defined.

Lemma backtrack_keeps_sync_witness :
  let g := (add_edges [(0, 1); (1, 2)] (Graph_init 3 true)).2 in
  let r := backtrack g 3 0 (mkState {[0]} [0]) in
  sync (mkState {[0]} [0]) ∧ backtrack g 3 0 (mkState {[0]} [0]) = (r.1, r.2) ∧ sync r.2.
Proof.
  intros g r. assert (Hs : sync (mkState {[0]} [0])) by apply sync_start.
  assert (Hr : backtrack g 3 0 (mkState {[0]} [0]) = (r.1, r.2)) by (vm_compute; reflexivity).
  split_and!; [exact Hs|exact Hr|exact (backtrack_keeps_sync _ _ _ _ _ _ Hs Hr)].
Defined.

Lemma hamiltonian_path_self_loop_witness :
  wf (mkGraph 3 false [[1]; [0; 2]; [1]]) ∧ in_range (mkGraph 3 false [[1]; [0; 2]; [1]]) 1 ∧
  ∃ g', add_edge 1 1 (mkGraph 3 false [[1]; [0; 2]; [1]]) = (inr (), g') ∧
        hamiltonian_path g' = hamiltonian_path (mkGraph 3 false [[1]; [0; 2]; [1]]).
Proof.
  assert (Hw : wf (mkGraph 3 false [[1]; [0; 2]; [1]])) by compute_decide.
  assert (Hu : in_range (mkGraph 3 false [[1]; [0; 2]; [1]]) 1) by compute_decide.
  split; [exact Hw|split; [exact Hu|exact (hamiltonian_path_self_loop _ 1 Hw Hu)]].
Defined.
