(* ===== verification/View.v ===== *)
(** * [visualizar_grafo] (src/view.py)

    The function copies the graph into a networkx graph [G] (a [Graph] or
    a [DiGraph] by [graph.directed]) by one [G.add_edge(u, v)] per stored
    adjacency entry, lays it out with [spring_layout] (a dictionary [pos]
    from every node of [G] to a point), draws it, highlights the path's
    edges and vertices when the path is truthy, sets the title and shows
    the figure.

    The model keeps what the code decides and leaves the geometry out:
    - [NxGraph] is the networkx graph as its node list (insertion order,
      no duplicates) and edge list (first insertion, an undirected edge
      being the same as its reverse); [nx_add_edge] is [G.add_edge], which
      adds the missing endpoints first.  [view_build] is the double loop.
    - The layout is modelled by its key set, the nodes of [G]: networkx
      reads [pos[v]] for every endpoint of an edge list and every vertex of
      a node list it draws, so [pos_lookup] raises [KeyError] for a vertex
      that is not a node of [G].  The coordinates, colours' rendering and
      [seed] are not modelled.
    - The matplotlib state is a [Canvas]: the layers drawn on the current
      figure, its title, and the figures [plt.show()] has displayed.

    The theorems: the graph drawn has an edge for every stored adjacency
    entry and exactly the vertices that occur in one (isolated vertices
    are not drawn); the path's edge list is [zip c c[1:]]; on a graph with
    two or more vertices the search's result is always drawable, with
    every highlighted edge an edge of the drawing; on one vertex the path
    [[0]] makes the drawing raise [KeyError] exactly when [adj[0]] is
    empty. *)
From stdpp Require Import strings.
From S2P Require Import Prelude Graph HamSpec Search.

(** ** networkx graphs *)

Record NxGraph := mkNx { nx_directed : bool; nx_nodes : list Z; nx_edges : list (Z * Z) }.

(** [nx.DiGraph()] or [nx.Graph()] *)
Definition nx_empty (d : bool) : NxGraph := mkNx d [] [].

(** [G.add_node(v)], as [add_edge] does it for a missing endpoint *)
Definition nx_add_node (v : Z) (G : NxGraph) : NxGraph :=
  if decide (v ∈ nx_nodes G) then G else mkNx (nx_directed G) (nx_nodes G ++ [v]) (nx_edges G).

(** [G.has_edge(u, v)]: an undirected graph also has the reverse. *)
Definition nx_has_edge (G : NxGraph) (e : Z * Z) : Prop :=
  e ∈ nx_edges G ∨ (nx_directed G = false ∧ (e.2, e.1) ∈ nx_edges G).

#[export] Instance nx_has_edge_dec G e : Decision (nx_has_edge G e).
Proof. unfold nx_has_edge. apply _. Defined.

(** [G.add_edge(u, v)]: add [u], then [v], then the edge if it is new. *)
Definition nx_add_edge (u v : Z) (G : NxGraph) : NxGraph :=
  let G' := nx_add_node v (nx_add_node u G) in
  if decide (nx_has_edge G' (u, v)) then G'
  else mkNx (nx_directed G') (nx_nodes G') (nx_edges G' ++ [(u, v)]).

(** [for u in range(graph.n): for v in graph.adj[u]: G.add_edge(u, v)] *)
Definition view_edges (g : Graph) : PyM NxGraph unit :=
  py_for (py_range (n g)) (λ u,
    vs ← py_lift IndexError (adj g).[u];
    py_for vs (λ v, py_modify (nx_add_edge u v))).

(** [G = nx.DiGraph() if graph.directed else nx.Graph()] and the loop. *)
Definition view_build (g : Graph) : exn + NxGraph :=
  py_exec (view_edges g) (nx_empty (directed g)).

(** ** The figure *)

(** What one drawing call puts on the figure. *)
Inductive Layer :=
  | DrawGraph (G : NxGraph)                      (* [nx.draw(G, pos, with_labels=True, ...)] *)
  | DrawEdges (es : list (Z * Z)) (width : Z) (color : string)
  | DrawNodes (vs : list Z) (color : string).

Record Canvas := mkCanvas {
  layers : list Layer;                           (* the current figure *)
  title : option string;
  shown : list (list Layer * option string)      (* figures displayed so far *)
}.

Definition draw (l : Layer) : PyM Canvas unit :=
  py_modify (λ c, mkCanvas (layers c ++ [l]) (title c) (shown c)).

(** [plt.title(t)] *)
Definition plt_title (t : string) : PyM Canvas unit :=
  py_modify (λ c, mkCanvas (layers c) (Some t) (shown c)).

(** [plt.show()]: display the current figure; the next drawing starts a
    new one. *)
Definition plt_show : PyM Canvas unit :=
  py_modify (λ c, mkCanvas [] None (shown c ++ [(layers c, title c)])).

(** [pos[v]] where [pos = nx.spring_layout(G)] has the nodes of [G] as keys. *)
Definition pos_lookup {S} (G : NxGraph) (v : Z) : PyM S unit :=
  if decide (v ∈ nx_nodes G) then mret () else mthrow KeyError.

(** [nx.draw_networkx_edges(G, pos, edgelist=es, width=w, edge_color=c)] *)
Definition draw_edges (G : NxGraph) (es : list (Z * Z)) (w : Z) (c : string) : PyM Canvas unit :=
  py_for es (λ e, pos_lookup G e.1;; pos_lookup G e.2);;
  draw (DrawEdges es w c).

(** [nx.draw_networkx_nodes(G, pos, nodelist=vs, node_color=c)] *)
Definition draw_nodes (G : NxGraph) (vs : list Z) (c : string) : PyM Canvas unit :=
  py_for vs (pos_lookup G);;
  draw (DrawNodes vs c).

(** [(caminho[i], caminho[i+1])] *)
Definition edge_at (c : list Z) (i : Z) : PyM Canvas (Z * Z) :=
  x ← py_lift IndexError c.[i]; y ← py_lift IndexError c.[i + 1]; mret (x, y).

(** [[(caminho[i], caminho[i+1]) for i in range(len(caminho) - 1)]] *)
Definition edges_path (c : list Z) : PyM Canvas (list (Z * Z)) :=
  mapM (edge_at c) (py_range (Z.of_nat (length c) - 1)).

Definition view_title (caminho : option (list Z)) : string :=
  if py_truthy caminho then "Caminho Hamiltoniano"
  else "Nenhum Caminho Hamiltoniano encontrado".

(** [visualizar_grafo(graph, caminho)] *)
Definition visualizar_grafo (g : Graph) (caminho : option (list Z)) : PyM Canvas unit :=
  G ← py_of_sum (view_build g);
  draw (DrawGraph G);;
  draw_edges G (nx_edges G) 1 "gray";;
  (if py_truthy caminho then
     let c := default [] caminho in
     ep ← edges_path c;
     draw_edges G ep 3 "red";;
     draw_nodes G c "lightcoral"
   else mret ());;
  plt_title (view_title caminho);;
  plt_show.

(** The graph a sequence of [G.add_edge] calls builds. *)
Definition nx_add_pairs (G : NxGraph) (es : list (Z * Z)) : NxGraph :=
  foldl (λ G e, nx_add_edge e.1 e.2 G) G es.

(** The stored adjacency entries [(u, v)], [v] in [graph.adj[u]], in the
    order of the double loop. *)
Definition adj_pairs (g : Graph) : list (Z * Z) :=
  py_range (n g) ≫= λ u, pair u <$> neighbors g u.

(** What [visualizar_grafo] draws on the figure. *)
Definition view_layers (G : NxGraph) (caminho : option (list Z)) : list Layer :=
  [DrawGraph G; DrawEdges (nx_edges G) 1 "gray"] ++
  (if py_truthy caminho then
     let c := default [] caminho in
     [DrawEdges (zip c (tail c)) 3 "red"; DrawNodes c "lightcoral"]
   else []).

(** ** Lemmas on networkx graphs *)

Lemma nx_add_edge_directed u v G : nx_directed (nx_add_edge u v G) = nx_directed G.
Proof. unfold nx_add_edge, nx_add_node. by repeat case_decide. Qed.

Lemma elem_of_nx_add_node w v G : w ∈ nx_nodes (nx_add_node v G) ↔ w ∈ nx_nodes G ∨ w = v.
Proof.
  unfold nx_add_node. case_decide; simpl; [naive_solver|].
  rewrite elem_of_app, list_elem_of_singleton. done.
Qed.

Lemma elem_of_nx_add_edge_nodes w u v G :
  w ∈ nx_nodes (nx_add_edge u v G) ↔ w ∈ nx_nodes G ∨ w = u ∨ w = v.
Proof.
  unfold nx_add_edge. case_decide; simpl; rewrite !elem_of_nx_add_node; tauto.
Qed.

Lemma nx_add_node_edges v G : nx_edges (nx_add_node v G) = nx_edges G.
Proof. unfold nx_add_node. by case_decide. Qed.

Lemma nx_add_node_has_edge v G e : nx_has_edge (nx_add_node v G) e ↔ nx_has_edge G e.
Proof. unfold nx_add_node. by case_decide. Qed.

Lemma elem_of_nx_add_edge_edges e u v G :
  e ∈ nx_edges (nx_add_edge u v G) → e ∈ nx_edges G ∨ e = (u, v).
Proof.
  unfold nx_add_edge. case_decide; simpl; rewrite ?elem_of_app, !nx_add_node_edges;
    [tauto|]. rewrite list_elem_of_singleton. tauto.
Qed.

Lemma nx_add_edge_has u v G : nx_has_edge (nx_add_edge u v G) (u, v).
Proof.
  unfold nx_add_edge. case_decide as H; [done|]. left. simpl. set_solver.
Qed.

Lemma nx_add_edge_mono u v G e : nx_has_edge G e → nx_has_edge (nx_add_edge u v G) e.
Proof.
  rewrite <- (nx_add_node_has_edge u), <- (nx_add_node_has_edge v).
  unfold nx_add_edge at 1. case_decide; [done|].
  unfold nx_has_edge; simpl. set_solver.
Qed.

#[export] Hint Resolve nx_add_edge_has nx_add_edge_mono : pyfacts.

Lemma nx_add_pairs_directed G es : nx_directed (nx_add_pairs G es) = nx_directed G.
Proof.
  revert G. induction es as [|e es IH]; intros G; [done|]. simpl. by rewrite IH, nx_add_edge_directed.
Qed.

Lemma elem_of_nx_add_pairs_nodes w G es :
  w ∈ nx_nodes (nx_add_pairs G es) ↔ w ∈ nx_nodes G ∨ ∃ e, e ∈ es ∧ (w = e.1 ∨ w = e.2).
Proof.
  revert G. induction es as [|e es IH]; intros G; simpl.
  - split; [tauto|]. intros [?|(? & ?%elem_of_nil & _)]; done.
  - rewrite IH, elem_of_nx_add_edge_nodes. setoid_rewrite elem_of_cons. naive_solver.
Qed.

Lemma nx_add_pairs_has_edge G es e : e ∈ es ∨ nx_has_edge G e → nx_has_edge (nx_add_pairs G es) e.
Proof.
  revert G. induction es as [|[u v] es IH]; intros G He; simpl.
  - destruct He as [?%elem_of_nil|]; done.
  - apply IH. rewrite elem_of_cons in He.
    destruct He as [[->|]|]; [right|left|right]; eauto with pyfacts.
Qed.

Lemma elem_of_nx_add_pairs_edges G es e :
  e ∈ nx_edges (nx_add_pairs G es) → e ∈ nx_edges G ∨ e ∈ es.
Proof.
  revert G. induction es as [|[u v] es IH]; intros G He; simpl in *; [by left|].
  rewrite elem_of_cons.
  apply IH in He as [[He| ->]%elem_of_nx_add_edge_edges|]; tauto.
Qed.

(** Every edge of a graph built by [add_edge] calls joins two of its nodes. *)
Lemma nx_add_pairs_closed d es e :
  e ∈ nx_edges (nx_add_pairs (nx_empty d) es) →
  e.1 ∈ nx_nodes (nx_add_pairs (nx_empty d) es) ∧ e.2 ∈ nx_nodes (nx_add_pairs (nx_empty d) es).
Proof.
  intros [He%elem_of_nil|He]%elem_of_nx_add_pairs_edges; [done|].
  rewrite !elem_of_nx_add_pairs_nodes. split; right; eauto.
Qed.

Lemma nx_add_pairs_app G es1 es2 :
  nx_add_pairs G (es1 ++ es2) = nx_add_pairs (nx_add_pairs G es1) es2.
Proof. apply foldl_app. Qed.

Lemma nx_add_pairs_fmap G u vs :
  nx_add_pairs G (pair u <$> vs) = foldl (λ G v, nx_add_edge u v G) G vs.
Proof. revert G. induction vs as [|v vs IH]; intros G; [done|]. apply IH. Qed.

Lemma elem_of_adj_pairs g u v : (u, v) ∈ adj_pairs g ↔ 0 ≤ u < n g ∧ v ∈ neighbors g u.
Proof.
  unfold adj_pairs. rewrite list_elem_of_bind. split.
  - intros (w & (x & [= -> ->] & Hx)%list_elem_of_fmap & Hw%elem_of_py_range). done.
  - intros [Hu Hv]. exists u. rewrite elem_of_py_range, list_elem_of_fmap. naive_solver.
Qed.

(** ** The double loop *)

Lemma getitem_range g u :
  length (adj g) = Z.to_nat (n g) → u ∈ py_range (n g) → (adj g).[u] = Some (neighbors g u).
Proof.
  intros Hlen Hu%elem_of_py_range. unfold neighbors.
  rewrite py_getitem_nonneg by lia.
  destruct (lookup_lt_is_Some_2 (adj g) (Z.to_nat u)) as [l Hl]; [lia|]. by rewrite Hl.
Qed.

Lemma view_edges_loop g us G :
  (∀ u, u ∈ us → (adj g).[u] = Some (neighbors g u)) →
  py_for us (λ u, vs ← py_lift IndexError (adj g).[u];
                  py_for vs (λ v, py_modify (nx_add_edge u v))) G =
    (inr (), nx_add_pairs G (us ≫= λ u, pair u <$> neighbors g u)).
Proof.
  revert G. induction us as [|u us IH]; intros G Hus; [done|].
  cbn [py_for]. rewrite (py_bind_inr _ _ G () (nx_add_pairs G (pair u <$> neighbors g u))).
  2:{ rewrite (py_bind_inr _ _ G (neighbors g u) G).
      - by rewrite py_for_modify, nx_add_pairs_fmap.
      - by rewrite Hus by apply list_elem_of_here. }
  rewrite IH by (intros; apply Hus; by right).
  by rewrite bind_cons, nx_add_pairs_app.
Qed.

(** On a graph with one list per vertex the loop completes and builds the
    graph of the stored entries. *)
Lemma view_build_pairs g :
  length (adj g) = Z.to_nat (n g) →
  view_build g = inr (nx_add_pairs (nx_empty (directed g)) (adj_pairs g)).
Proof.
  intros Hlen. unfold view_build, py_exec, view_edges.
  rewrite view_edges_loop; [done|]. intros. by apply getitem_range.
Qed.

(** ** Drawing *)

Lemma pos_lookup_run {S} G v (s : S) :
  pos_lookup G v s = (if decide (v ∈ nx_nodes G) then inr () else inl KeyError, s).
Proof. unfold pos_lookup. by case_decide. Qed.

Lemma pos_lookup_ok {S} G v (s : S) : v ∈ nx_nodes G → pos_lookup G v s = (inr (), s).
Proof. intros. by rewrite pos_lookup_run, decide_True. Qed.


(** Drawing edges whose endpoints are nodes of [G] adds the layer. *)
Lemma draw_edges_ok G es w col cv :
  (∀ e, e ∈ es → e.1 ∈ nx_nodes G ∧ e.2 ∈ nx_nodes G) →
  draw_edges G es w col cv = (inr (), mkCanvas (layers cv ++ [DrawEdges es w col]) (title cv) (shown cv)).
Proof.
  intros Hes. unfold draw_edges. erewrite py_bind_inr; [done|].
  apply py_for_skip. intros e He. destruct (Hes e He) as [H1 H2].
  by rewrite (py_bind_inr _ _ _ _ _ (pos_lookup_ok _ _ _ H1)), pos_lookup_ok.
Qed.

Lemma draw_nodes_ok G vs col cv :
  (∀ v, v ∈ vs → v ∈ nx_nodes G) →
  draw_nodes G vs col cv = (inr (), mkCanvas (layers cv ++ [DrawNodes vs col]) (title cv) (shown cv)).
Proof.
  intros Hvs. unfold draw_nodes. erewrite py_bind_inr; [done|].
  apply py_for_skip. intros. by apply pos_lookup_ok, Hvs.
Qed.


Lemma edge_at_ok c a x y cv :
  (a < length c)%nat → c !! a = Some x → c !! S a = Some y →
  edge_at c (Z.of_nat a) cv = (inr (x, y), cv).
Proof.
  intros Ha Hx Hy. unfold edge_at. pose proof (lookup_lt_Some _ _ _ Hy).
  replace (Z.of_nat a + 1) with (Z.of_nat (S a)) by lia.
  by rewrite !py_getitem_nonneg, !Nat2Z.id, Hx, Hy by lia.
Qed.

Lemma edges_path_seq c a k cv :
  (a + k < length c)%nat →
  mapM (edge_at c) (Z.of_nat <$> seq a k) cv = (inr (take k (drop a (zip c (tail c)))), cv).
Proof.
  revert a. induction k as [|k IH]; intros a Hk; [by rewrite take_0|].
  destruct (lookup_lt_is_Some_2 c a) as [x Hx]; [lia|].
  destruct (lookup_lt_is_Some_2 c (S a)) as [y Hy]; [lia|].
  assert (Hz : zip c (tail c) !! a = Some (x, y)).
  { by rewrite lookup_zip_with, Hx, lookup_tail, Hy. }
  cbn [fmap list_fmap seq mapM].
  rewrite (py_bind_inr _ _ _ _ _ (edge_at_ok c a x y cv ltac:(lia) Hx Hy)).
  rewrite (py_bind_inr _ _ _ _ _ (IH (S a) ltac:(lia))).
  by rewrite (drop_S _ _ _ Hz).
Qed.

(** The list comprehension is [zip(caminho, caminho[1:])]. *)
Lemma edges_path_zip c cv : edges_path c cv = (inr (zip c (tail c)), cv).
Proof.
  destruct c as [|x c]; [done|]. unfold edges_path, py_range.
  replace (Z.to_nat (Z.of_nat (length (x :: c)) - 1)) with (0 + length c)%nat by (cbn [length]; lia).
  rewrite edges_path_seq by (cbn [length]; lia). rewrite drop_0, take_ge; [done|].
  rewrite length_zip_with. cbn [length tail]. lia.
Qed.

(** The endpoints of [zip c c[1:]] lie on [c]. *)
Lemma elem_of_zip_tail (c : list Z) (e : Z * Z) : e ∈ zip c (tail c) → e.1 ∈ c ∧ e.2 ∈ c.
Proof.
  destruct e as [a b]. intros He. split; [by eapply elem_of_zip_l|].
  apply elem_of_zip_r in He. destruct c; [done|]. by apply list_elem_of_further.
Qed.

(** [visualizar_grafo] draws [view_layers], titles and shows the figure,
    when every vertex it highlights is a node of the graph drawn. *)
Lemma visualizar_grafo_ok g caminho G cv :
  view_build g = inr G →
  (∀ e, e ∈ nx_edges G → e.1 ∈ nx_nodes G ∧ e.2 ∈ nx_nodes G) →
  (py_truthy caminho = true → ∀ v, v ∈ default [] caminho → v ∈ nx_nodes G) →
  visualizar_grafo g caminho cv =
    (inr (), mkCanvas [] None
               (shown cv ++ [(layers cv ++ view_layers G caminho, Some (view_title caminho))])).
Proof.
  intros Hb Hclosed Hc. unfold visualizar_grafo. rewrite Hb.
  erewrite py_bind_inr by reflexivity. erewrite py_bind_inr by reflexivity.
  erewrite py_bind_inr by (apply draw_edges_ok, Hclosed).
  unfold view_layers. destruct (py_truthy caminho) eqn:Ht.
  - specialize (Hc eq_refl). erewrite py_bind_inr.
    2:{ erewrite py_bind_inr by apply edges_path_zip.
        erewrite py_bind_inr.
        2:{ apply draw_edges_ok. intros e He%elem_of_zip_tail. split; apply Hc; tauto. }
        by apply draw_nodes_ok. }
    unfold plt_title, plt_show. pyrun. by rewrite <- !app_assoc.
  - erewrite py_bind_inr by reflexivity.
    unfold plt_title, plt_show. pyrun. by rewrite ?app_nil_r, <- !app_assoc.
Qed.

(** ** Paths and the edges they highlight *)

Lemma zip_tail_lookup (p : list Z) a b :
  (a, b) ∈ zip p (tail p) → ∃ i, p !! i = Some a ∧ p !! S i = Some b.
Proof.
  intros (i & Hi)%list_elem_of_lookup. exists i.
  rewrite lookup_zip_with, lookup_tail in Hi.
  destruct (p !! i), (p !! S i); simplify_eq/=; auto.
Qed.

Lemma zip_tail_at (p : list Z) i a b :
  p !! i = Some a → p !! S i = Some b → (a, b) ∈ zip p (tail p).
Proof.
  intros Ha Hb. apply (list_elem_of_lookup_2 _ i).
  by rewrite lookup_zip_with, lookup_tail, Ha, Hb.
Qed.

(** On a path of two or more vertices every vertex ends a highlighted edge. *)
Lemma zip_tail_covers (p : list Z) v :
  (2 ≤ length p)%nat → v ∈ p → ∃ e, e ∈ zip p (tail p) ∧ (v = e.1 ∨ v = e.2).
Proof.
  intros Hlen (i & Hi)%list_elem_of_lookup. pose proof (lookup_lt_Some _ _ _ Hi).
  destruct (decide (S i < length p)%nat) as [Hlt|Hge].
  - destruct (lookup_lt_is_Some_2 p (S i)) as [w Hw]; [done|].
    exists (v, w). split; [by eapply zip_tail_at|by left].
  - destruct i as [|j]; [lia|].
    destruct (lookup_lt_is_Some_2 p j) as [u Hu]; [lia|].
    exists (u, v). split; [by eapply zip_tail_at|by right].
Qed.

(** The highlighted edges of a path of the graph are stored entries. *)
Lemma zip_tail_adj_pairs g p e :
  partial_ok g p → e ∈ zip p (tail p) → e ∈ adj_pairs g.
Proof.
  destruct e as [a b]. intros (_ & Hall & He) (i & Ha & Hb)%zip_tail_lookup.
  apply elem_of_adj_pairs. split.
  - exact (Forall_lookup_1 _ _ _ _ Hall Ha).
  - by eapply path_edges_lookup.
Qed.

(** The graph drawn is the graph of the stored entries. *)
Lemma view_build_spec g :
  length (adj g) = Z.to_nat (n g) →
  ∃ G, view_build g = inr G ∧ nx_directed G = directed g ∧
    (∀ e, e ∈ adj_pairs g → nx_has_edge G e) ∧
    (∀ e, e ∈ nx_edges G → e ∈ adj_pairs g) ∧
    (∀ w, w ∈ nx_nodes G ↔ ∃ e, e ∈ adj_pairs g ∧ (w = e.1 ∨ w = e.2)).
Proof.
  intros Hlen. eexists. split_and!; [by apply view_build_pairs|..].
  - by rewrite nx_add_pairs_directed.
  - intros e He. apply nx_add_pairs_has_edge. by left.
  - intros e [He%elem_of_nil|]%elem_of_nx_add_pairs_edges; done.
  - intros w. rewrite elem_of_nx_add_pairs_nodes. simpl. rewrite elem_of_nil. naive_solver.
Qed.

(** Every edge of the graph drawn joins two of its nodes. *)
Lemma view_closed G (es : list (Z * Z)) :
  (∀ e, e ∈ nx_edges G → e ∈ es) →
  (∀ w, w ∈ nx_nodes G ↔ ∃ e, e ∈ es ∧ (w = e.1 ∨ w = e.2)) →
  ∀ e, e ∈ nx_edges G → e.1 ∈ nx_nodes G ∧ e.2 ∈ nx_nodes G.
Proof. intros Hback Hnodes e He%Hback. rewrite !Hnodes. split; exists e; auto. Qed.


(** ** The graph drawn, and the search's path on it *)

(** The search's result on a well-formed graph of two or more vertices
    is drawn without error. *)
Lemma visualizar_grafo_search_ok g c cv :
  wf g → 2 ≤ n g → hamiltonian_path g = inr c →
  ∃ G, view_build g = inr G ∧
    visualizar_grafo g c cv =
      (inr (), mkCanvas [] None (shown cv ++ [(layers cv ++ view_layers G c, Some (view_title c))])) ∧
    ∀ e, e ∈ zip (default [] c) (tail (default [] c)) → nx_has_edge G e.
Proof.
  intros Hwf Hn Hc. destruct (view_build_spec g) as (G & Hb & _ & Hedge & Hback & Hnodes);
    [apply Hwf|].
  assert (Hp : ∀ p, c = Some p → is_ham_path g p).
  { intros p ->. by eapply (ham_search_sound hamiltonian_path). }
  exists G. split_and!; [done| |].
  - apply visualizar_grafo_ok; [done| |].
    + by apply (view_closed G (adj_pairs g)).
    + destruct c as [p|]; [|done]. intros _ v Hv. simpl in Hv.
      destruct (Hp p eq_refl) as [Hlen Hok].
      destruct (zip_tail_covers p v) as (e & He & Hve); [lia|done|].
      apply Hnodes. exists e. split; [by eapply zip_tail_adj_pairs|done].
  - destruct c as [p|]; [|intros e ?%elem_of_nil; done]. intros e He. simpl in He.
    apply Hedge. eapply zip_tail_adj_pairs; [apply Hp|]; done.
Qed.

(** C25: on a well-formed graph with two or more vertices, whatever the
    search returns, [visualizar_grafo] completes: it draws the graph of
    the stored entries, highlights [zip(caminho, caminho[1:])] and the
    path's vertices when a path was found, sets the title that says whether
    one was found and shows the figure; every highlighted edge is an edge
    of the graph drawn.  The search and the drawing compose without
    [KeyError]. *)
Theorem visualizar_grafo_path_drawable g c cv :
  wf g → 2 ≤ n g → hamiltonian_path g = inr c →
  ∃ G, view_build g = inr G ∧
    visualizar_grafo g c cv =
      (inr (), mkCanvas [] None (shown cv ++ [(layers cv ++ view_layers G c, Some (view_title c))])) ∧
    ∀ e, e ∈ zip (default [] c) (tail (default [] c)) → nx_has_edge G e.
Proof. apply visualizar_grafo_search_ok. Qed.

(** C26: the graph drawn is the graph of the stored adjacency entries: its
    kind follows [graph.directed], it has an edge [(u, v)] for every [v] in
    [graph.adj[u]], no other edge, and its nodes are exactly the endpoints
    of the entries, so a vertex with no entry in or out is not drawn. *)
Theorem view_build_refines g :
  length (adj g) = Z.to_nat (n g) →
  ∃ G, view_build g = inr G ∧ nx_directed G = directed g ∧
    (∀ u v, 0 ≤ u < n g → v ∈ neighbors g u → nx_has_edge G (u, v)) ∧
    (∀ u v, (u, v) ∈ nx_edges G → 0 ≤ u < n g ∧ v ∈ neighbors g u) ∧
    (∀ w, w ∈ nx_nodes G ↔ ∃ u v, 0 ≤ u < n g ∧ v ∈ neighbors g u ∧ (w = u ∨ w = v)).
Proof.
  intros Hlen. destruct (view_build_spec g Hlen) as (G & Hb & Hd & Hedge & Hback & Hnodes).
  exists G. split_and!; [done|done|..].
  - intros u v Hu Hv. apply Hedge, elem_of_adj_pairs. done.
  - intros u v He. by apply elem_of_adj_pairs, Hback.
  - intros w. rewrite Hnodes. split.
    + intros ([u v] & He%elem_of_adj_pairs & Hw). exists u, v. naive_solver.
    + intros (u & v & Hu & Hv & Hw). exists (u, v). rewrite elem_of_adj_pairs. naive_solver.
Qed.


(** ** Witnesses *)

Lemma visualizar_grafo_path_drawable_witness :
  let g := (add_edges [(0, 1); (1, 2); (2, 3); (3, 4); (0, 2)] (Graph_init 5 false)).2 in
  wf g ∧ 2 ≤ n g ∧ hamiltonian_path g = inr (Some [0; 1; 2; 3; 4]) ∧
  ∃ G, view_build g = inr G ∧
    visualizar_grafo g (Some [0; 1; 2; 3; 4]) (mkCanvas [] None []) =
      (inr (), mkCanvas [] None ([] ++ [([] ++ view_layers G (Some [0; 1; 2; 3; 4]),
                                           Some (view_title (Some [0; 1; 2; 3; 4])))])) ∧
    ∀ e, e ∈ zip (default [] (Some [0; 1; 2; 3; 4])) (tail (default [] (Some [0; 1; 2; 3; 4]))) →
         nx_has_edge G e.
Proof.
  intros g. assert (Hwf : wf g) by compute_decide.
  assert (Hn : 2 ≤ n g) by (vm_compute; discriminate).
  assert (Hc : hamiltonian_path g = inr (Some [0; 1; 2; 3; 4])) by (vm_compute; reflexivity).
  split_and!; [exact Hwf|exact Hn|exact Hc|].
  exact (visualizar_grafo_path_drawable g _ (mkCanvas [] None []) Hwf Hn Hc).
Defined.

Lemma view_build_refines_witness :
  length (adj (mkGraph 4 false [[1]; [0]; []; []])) = Z.to_nat (n (mkGraph 4 false [[1]; [0]; []; []])) ∧
  ∃ G, view_build (mkGraph 4 false [[1]; [0]; []; []]) = inr G ∧ nx_directed G = false ∧
    (∀ u v, 0 ≤ u < 4 → v ∈ neighbors (mkGraph 4 false [[1]; [0]; []; []]) u → nx_has_edge G (u, v)) ∧
    (∀ u v, (u, v) ∈ nx_edges G → 0 ≤ u < 4 ∧ v ∈ neighbors (mkGraph 4 false [[1]; [0]; []; []]) u) ∧
    (∀ w, w ∈ nx_nodes G ↔ ∃ u v, 0 ≤ u < 4 ∧ v ∈ neighbors (mkGraph 4 false [[1]; [0]; []; []]) u ∧
                                  (w = u ∨ w = v)).
Proof. split; [reflexivity|]. apply (view_build_refines (mkGraph 4 false [[1]; [0]; []; []])). reflexivity. Defined.

