(* ===== verification/Driver.v ===== *)
(** * The driver of src/main.py (lines 48-71) and graphs outside the spec

    [g1] and [g2] are the two graphs the [__main__] block builds by
    [add_edge] calls, and [caminho1], [caminho2] the search results it
    prints; their values are computed.  The whole block is [main]: a
    computation on a [World] (the text on standard output and the
    matplotlib figures), made of two [driver_block]s, each printing a
    banner, building its graph ([build_graph]), calling [Graph.show]
    ([Show]), searching ([Search]), printing the result ([py_str_path] is
    [str] on it) and drawing ([View]); the methods run on their part of the
    world through [on_stdout] and [on_canvas].  The theorems compose the
    components' lemmas: a block raises nothing and prints and draws what
    the components promise.  The complete graph [K_n] of the spec's
    testable properties is built the same way, by [add_edge] calls over all
    pairs [i < j]; its lists are [0, ..., i - 1, i + 1, ..., n - 1], so the
    search returns exactly [[0, ..., n - 1]]. *)
From stdpp Require Import strings.
From S2P Require Import Prelude Graph Show HamSpec Search View.

(** [g1 = Graph(5, directed=False)] and its five [add_edge] calls. *)
Definition g1 : Graph :=
  (add_edges [(0, 1); (1, 2); (2, 3); (3, 4); (0, 2)] (Graph_init 5 false)).2.

(** [caminho1 = hamiltonian_path(g1)] *)
Definition caminho1 : exn + option (list Z) := hamiltonian_path g1.

(** [g2 = Graph(4, directed=True)] and its four [add_edge] calls. *)
Definition g2 : Graph :=
  (add_edges [(0, 1); (1, 2); (2, 3); (0, 2)] (Graph_init 4 true)).2.

(** [caminho2 = hamiltonian_path(g2)] *)
Definition caminho2 : exn + option (list Z) := hamiltonian_path g2.

(** The complete undirected graph on [n0] vertices: the edges [(i, j)]
    with [i < j], by ascending [i] then [j]. *)
Definition complete_edges (n0 : Z) : list (Z * Z) :=
  py_range n0 ≫= λ i, (λ j, (i, j)) <$> filter (λ j, i < j) (py_range n0).

Definition complete_graph (n0 : Z) : Graph := (add_edges (complete_edges n0) (Graph_init n0 false)).2.

(** ** The whole run of the [__main__] block *)

(** What the program changes outside itself: the text on standard output
    and the matplotlib figures. *)
Record World := mkWorld { stdout : string; canvas : Canvas }.

Definition on_stdout {A} (m : PyM string A) : PyM World A :=
  py_zoom stdout (λ o w, mkWorld o (canvas w)) m.

Definition on_canvas {A} (m : PyM Canvas A) : PyM World A :=
  py_zoom canvas (λ c w, mkWorld (stdout w) c) m.

(** [str(caminho)]: ["None"], or the list. *)
Definition py_str_path (r : option (list Z)) : string :=
  match r with None => "None" | Some l => py_str_list l end.

(** [g = Graph(n0, directed=d)] and its [g.add_edge(u, v)] calls. *)
Definition build_graph (n0 : Z) (d : bool) (es : list (Z * Z)) : PyM World Graph :=
  py_of_sum (py_exec (add_edges es) (Graph_init n0 d)).

(** One block of the driver: print the banner, build the graph, [g.show()],
    search, print the result (with the [extra] arguments of the [print]
    call), draw. *)
Definition driver_block (banner : string) (n0 : Z) (d : bool) (es : list (Z * Z))
    (extra : list string) : PyM World unit :=
  on_stdout (py_print [banner]);;
  g ← build_graph n0 d es;
  on_stdout (Graph_show g);;
  caminho ← py_of_sum (hamiltonian_path g);
  on_stdout (py_print (["Caminho Hamiltoniano:"; py_str_path caminho] ++ extra));;
  on_canvas (visualizar_grafo g caminho).

(** The [__main__] block. *)
Definition main : PyM World unit :=
  driver_block "=== Grafo NÃO DIRIGIDO ===" 5 false [(0, 1); (1, 2); (2, 3); (3, 4); (0, 2)]
    [String newline EmptyString];;
  driver_block "=== Grafo DIRIGIDO ===" 4 true [(0, 1); (1, 2); (2, 3); (0, 2)] [].

(** ** The complete graph *)

Lemma elem_of_complete_edges n0 a b :
  (a, b) ∈ complete_edges n0 ↔ 0 ≤ a < b ∧ b < n0.
Proof.
  unfold complete_edges. rewrite list_elem_of_bind. split.
  - intros (i & (j & [= -> ->] & [Hij Hj%elem_of_py_range]%list_elem_of_filter)%list_elem_of_fmap
        & Hi%elem_of_py_range). lia.
  - intros Hab. exists a. rewrite elem_of_py_range. split; [|lia].
    apply list_elem_of_fmap. exists b. rewrite list_elem_of_filter, elem_of_py_range. naive_solver lia.
Qed.

Lemma complete_edges_in_range n0 : edges_in_range n0 (complete_edges n0).
Proof.
  apply Forall_forall. intros [a b] Hab%elem_of_complete_edges. simpl. lia.
Qed.



Lemma complete_graph_wf n0 : wf (complete_graph n0).
Proof.
  unfold complete_graph. rewrite add_edges_built by apply complete_edges_in_range.
  apply built_graph_wf, complete_edges_in_range.
Qed.

(** ** The complete graph: the lists and the greedy first path *)

Lemma bind_count_row (l : list Z) i (x : Z) :
  NoDup l → l ≫= (λ b, if decide (b = i) then [x] else []) = if decide (i ∈ l) then [x] else [].
Proof.
  induction l as [|b l IH]; intros Hnd; [done|]. apply NoDup_cons in Hnd as [Hb Hnd].
  rewrite bind_cons, IH by done. destruct (decide (b = i)) as [<-|Hbi].
  - rewrite decide_False by done. rewrite decide_True by by left. done.
  - simpl. destruct (decide (i ∈ l)); [rewrite decide_True|rewrite decide_False]; set_solver.
Qed.

Lemma filter_gt_range N i :
  (i < N)%nat →
  filter (λ b, Z.of_nat i < b) (py_range (Z.of_nat N)) = Z.of_nat <$> seq (S i) (N - S i).
Proof.
  intros Hi. rewrite (py_range_app (S i) N), filter_app by lia.
  rewrite filter_all_false, filter_all_true; [done| |].
  - intros x Hx%elem_of_seq_Z. lia.
  - intros x Hx%elem_of_py_range. lia.
Qed.

(** What the edges [(a, b)], [a < b], of one row contribute to the list
    of vertex [i]. *)
Lemma complete_row N i a :
  (i < N)%nat → 0 ≤ a < Z.of_nat N →
  filter (λ b, a < b) (py_range (Z.of_nat N)) ≫= (λ b, edge_contrib false (Z.of_nat i) (a, b)) =
    if decide (a = Z.of_nat i) then Z.of_nat <$> seq (S i) (N - S i)
    else if decide (a < Z.of_nat i) then [a] else [].
Proof.
  intros Hi Ha. unfold edge_contrib. simpl. case_decide as Hai.
  - subst a. rewrite <- filter_gt_range by done. rewrite <- (bind_singleton_id (filter _ _)) at 2.
    apply list_bind_ext_in. intros b Hb%list_elem_of_filter. rewrite decide_False by lia.
    apply app_nil_r.
  - rewrite (list_bind_ext_in _ _ (λ b, if decide (b = Z.of_nat i) then [a] else []))
      by (intros; done).
    rewrite bind_count_row by (apply NoDup_filter, NoDup_py_range).
    destruct (decide (a < Z.of_nat i)) as [Hlt|Hlt]; [rewrite decide_True|rewrite decide_False]; try done.
    + apply list_elem_of_filter. rewrite elem_of_py_range. lia.
    + intros [? ?%elem_of_py_range]%list_elem_of_filter. lia.
Qed.

(** In [K_n] built by the driver's loops, [adj[i]] is [0, ..., i - 1, i + 1,
    ..., n - 1], in this order. *)
Lemma complete_neighbors N i :
  (i < N)%nat →
  neighbors (complete_graph (Z.of_nat N)) (Z.of_nat i) =
    py_range (Z.of_nat i) ++ (Z.of_nat <$> seq (S i) (N - S i)).
Proof.
  intros Hi. unfold complete_graph.
  rewrite add_edges_built by apply complete_edges_in_range. cbn [snd].
  rewrite built_graph_neighbors by lia.
  unfold adj_spec, complete_edges. rewrite list_bind_assoc.
  rewrite (list_bind_ext_in _ _ (λ a, if decide (a = Z.of_nat i) then Z.of_nat <$> seq (S i) (N - S i)
                                     else if decide (a < Z.of_nat i) then [a] else [])).
  2:{ intros a Ha%elem_of_py_range. rewrite list_fmap_bind. by apply complete_row. }
  rewrite (py_range_app i N), bind_app by lia.
  replace (N - i)%nat with (S (N - S i)) by lia. cbn [seq]. rewrite fmap_cons.
  rewrite bind_cons, decide_True by done.
  rewrite (list_bind_ext_in (py_range (Z.of_nat i)) _ (λ a, [a])), bind_singleton_id.
  2:{ intros a Ha%elem_of_py_range. by rewrite decide_False, decide_True by lia. }
  rewrite (list_bind_ext_in (Z.of_nat <$> seq (S i) _) _ (λ _, [])), bind_const_nil, app_nil_r;
    [done|].
  intros a Ha%elem_of_seq_Z. by rewrite !decide_False by lia.
Qed.

(** From the path [0, ..., i] the first completion goes on with [i + 1]. *)
Lemma complete_completions_head N i k :
  (i + 1 + k = N)%nat →
  head (completions (complete_graph (Z.of_nat N)) k (py_range (Z.of_nat (S i))) (Z.of_nat i)) =
    Some (py_range (Z.of_nat N)).
Proof.
  revert i. induction k as [|k IH]; intros i Hk.
  { simpl. do 3 f_equal. lia. }
  cbn [completions]. rewrite complete_neighbors by lia.
  replace (N - S i)%nat with (S (N - S (S i))) by lia. cbn [seq fmap list_fmap].
  rewrite bind_app, (list_bind_ext_in (py_range (Z.of_nat i)) _ (λ _, [])), bind_const_nil.
  2:{ intros a Ha%elem_of_py_range. rewrite decide_True; [done|].
      rewrite py_range_S, elem_of_app. left. by apply elem_of_py_range. }
  rewrite app_nil_l, bind_cons, decide_False.
  2:{ rewrite elem_of_py_range. lia. }
  rewrite <- py_range_S, head_app, (IH (S i)) by lia. done.
Qed.

Lemma complete_all_ham_paths_head N :
  (1 ≤ N)%nat → head (all_ham_paths (complete_graph (Z.of_nat N))) = Some (py_range (Z.of_nat N)).
Proof.
  intros HN. unfold all_ham_paths.
  assert (Hn : n (complete_graph (Z.of_nat N)) = Z.of_nat N).
  { unfold complete_graph. by rewrite add_edges_built by apply complete_edges_in_range. }
  rewrite Hn, (py_range_app 1 N), bind_app by lia. change (py_range (Z.of_nat 1)) with [0].
  rewrite bind_cons, bind_nil_l, app_nil_r, Nat2Z.id.
  pose proof (complete_completions_head N 0 (N - 1) ltac:(lia)) as Hh.
  change (py_range (Z.of_nat 1)) with [0] in Hh. change (Z.of_nat 0) with 0 in Hh.
  rewrite head_app, Hh. f_equal. apply (py_range_app 1 N). lia.
Qed.

(** ** Running a block of the driver *)

Lemma on_stdout_run {A} (m : PyM string A) w r o :
  m (stdout w) = (r, o) → on_stdout m w = (r, mkWorld o (canvas w)).
Proof. intros H. exact (py_zoom_run _ _ _ _ _ _ H). Qed.

Lemma on_canvas_run {A} (m : PyM Canvas A) w r c :
  m (canvas w) = (r, c) → on_canvas m w = (r, mkWorld (stdout w) c).
Proof. intros H. exact (py_zoom_run _ _ _ _ _ _ H). Qed.

Lemma build_graph_run n0 d es w :
  edges_in_range n0 es → build_graph n0 d es w = (inr (built_graph n0 d es), w).
Proof. intros Hes. unfold build_graph, py_exec. by rewrite add_edges_built. Qed.

(** A block on in-range edges and two or more vertices prints the banner,
    the graph, the result, and draws one figure. *)
Lemma driver_block_spec banner n0 d es extra w :
  2 ≤ n0 → edges_in_range n0 es →
  let g := built_graph n0 d es in
  let c := head (all_ham_paths g) in
  ∃ G, driver_block banner n0 d es extra w =
    (inr (), mkWorld
       (stdout w +:+ text_of_lines [banner] +:+ show_text g +:+
          text_of_lines [py_join " " (["Caminho Hamiltoniano:"; py_str_path c] ++ extra)])
       (mkCanvas [] None (shown (canvas w) ++
          [(layers (canvas w) ++ view_layers G c, Some (view_title c))]))).
Proof.
  intros Hn Hes g c. pose proof (built_graph_wf n0 d es Hes) as Hwf.
  assert (Hc : hamiltonian_path g = inr c) by by apply search_spec.
  destruct (visualizar_grafo_search_ok g c (canvas w) Hwf Hn Hc) as (G & _ & Hv & _).
  exists G. unfold driver_block.
  erewrite py_bind_inr by (apply on_stdout_run, py_print_run).
  erewrite py_bind_inr by (apply build_graph_run, Hes).
  erewrite py_bind_inr by (apply on_stdout_run, Graph_show_ok, Hwf).
  erewrite py_bind_inr by (unfold py_of_sum; fold g; rewrite Hc; reflexivity).
  erewrite py_bind_inr by (apply on_stdout_run, py_print_run).
  erewrite on_canvas_run by exact Hv. simpl. by rewrite !str_app_assoc.
Qed.

(** ** Properties of the driver's runs *)


(** C28: Composition of all the components: a block of the driver on
    in-range edges and two or more vertices raises nothing; it prints the
    banner, exactly the text [Graph.show] prints for the graph the
    [add_edge] calls build ([show_text], read back by C23), and the line
    [Caminho Hamiltoniano: <str of the first path of all_ham_paths>], and
    it shows one figure that draws [view_layers] with the title that says
    whether a path was found. *)
Theorem driver_block_run banner n0 d es extra w :
  2 ≤ n0 → edges_in_range n0 es →
  let g := built_graph n0 d es in
  let c := head (all_ham_paths g) in
  ∃ G, driver_block banner n0 d es extra w =
    (inr (), mkWorld
       (stdout w +:+ text_of_lines [banner] +:+ show_text g +:+
          text_of_lines [py_join " " (["Caminho Hamiltoniano:"; py_str_path c] ++ extra)])
       (mkCanvas [] None (shown (canvas w) ++
          [(layers (canvas w) ++ view_layers G c, Some (view_title c))]))).
Proof. apply driver_block_spec. Qed.

(** C29: When the graph has no Hamiltonian path, a block of the driver
    prints [Caminho Hamiltoniano: None] (Python's [str(None)]) as its last
    line and shows a figure titled [Nenhum Caminho Hamiltoniano
    encontrado]; it raises nothing. *)
Theorem driver_block_no_path banner n0 d es extra w :
  2 ≤ n0 → edges_in_range n0 es → (∀ p, ¬ is_ham_path (built_graph n0 d es) p) →
  ∃ o figs, driver_block banner n0 d es extra w =
    (inr (), mkWorld (o +:+ text_of_lines [py_join " " (["Caminho Hamiltoniano:"; "None"] ++ extra)])
                     (mkCanvas [] None (shown (canvas w) ++ figs))) ∧
    snd <$> figs = [Some "Nenhum Caminho Hamiltoniano encontrado"].
Proof.
  intros Hn Hes Hno. destruct (driver_block_spec banner n0 d es extra w Hn Hes) as [G Hrun].
  assert (Hh : head (all_ham_paths (built_graph n0 d es)) = None).
  { destruct (all_ham_paths _) as [|q qs] eqn:Hq; [done|]. exfalso. apply (Hno q).
    apply elem_of_all_ham_paths; [by apply built_graph_wf|simpl; lia|]. rewrite Hq. by left. }
  rewrite Hh in Hrun. do 2 eexists. split; [rewrite Hrun; f_equal; f_equal|].
  - by rewrite <- !str_app_assoc.
  - done.
Qed.

(** C12: The exact result on [K_n]: for every [n >= 1] the search on the
    complete graph built by the [add_edge] calls over all pairs [i < j]
    returns [[0, 1, ..., n - 1]]: [adj[i]] lists [0, ..., i - 1] and then
    [i + 1, ..., n - 1], so the first branch never fails. *)
Theorem complete_graph_first_path n0 :
  1 ≤ n0 → hamiltonian_path (complete_graph n0) = inr (Some (py_range n0)).
Proof.
  intros Hn. rewrite search_spec by apply complete_graph_wf.
  rewrite <- (Z2Nat.id n0) by lia. by rewrite complete_all_ham_paths_head by lia.
Qed.

(** ** Witnesses: the properties at concrete inputs *)


Lemma driver_block_run_witness :
  2 ≤ 4 ∧ edges_in_range 4 [(0, 1); (0, 2); (0, 3)] ∧
  let g := built_graph 4 false [(0, 1); (0, 2); (0, 3)] in
  let c := head (all_ham_paths g) in
  ∃ G, driver_block "" 4 false [(0, 1); (0, 2); (0, 3)] [] (mkWorld EmptyString (mkCanvas [] None [])) =
    (inr (), mkWorld
       (EmptyString +:+ text_of_lines [""] +:+ show_text g +:+
          text_of_lines [py_join " " (["Caminho Hamiltoniano:"; py_str_path c] ++ [])])
       (mkCanvas [] None ([] ++ [([] ++ view_layers G c, Some (view_title c))]))).
Proof.
  assert (Hn : 2 ≤ 4) by lia.
  assert (Hes : edges_in_range 4 [(0, 1); (0, 2); (0, 3)]) by (repeat constructor; simpl; lia).
  split_and!; [exact Hn|exact Hes|].
  exact (driver_block_run "" 4 false _ [] (mkWorld EmptyString (mkCanvas [] None [])) Hn Hes).
Defined.

Lemma driver_block_no_path_witness :
  2 ≤ 4 ∧ edges_in_range 4 [(0, 1); (0, 2); (0, 3)] ∧
  (∀ p, ¬ is_ham_path (built_graph 4 false [(0, 1); (0, 2); (0, 3)]) p) ∧
  ∃ o figs, driver_block "" 4 false [(0, 1); (0, 2); (0, 3)] [] (mkWorld EmptyString (mkCanvas [] None [])) =
    (inr (), mkWorld (o +:+ text_of_lines [py_join " " (["Caminho Hamiltoniano:"; "None"] ++ [])])
                     (mkCanvas [] None ([] ++ figs))) ∧
    snd <$> figs = [Some "Nenhum Caminho Hamiltoniano encontrado"].
Proof.
  assert (Hn : 2 ≤ 4) by lia.
  assert (Hes : edges_in_range 4 [(0, 1); (0, 2); (0, 3)]) by (repeat constructor; simpl; lia).
  assert (Hno : ∀ p, ¬ is_ham_path (built_graph 4 false [(0, 1); (0, 2); (0, 3)]) p).
  { intros p Hp. apply elem_of_all_ham_paths in Hp; [|by apply built_graph_wf|simpl; lia].
    revert Hp. vm_compute. apply elem_of_nil. }
  split_and!; [exact Hn|exact Hes|exact Hno|].
  exact (driver_block_no_path "" 4 false _ [] (mkWorld EmptyString (mkCanvas [] None [])) Hn Hes Hno).
Defined.

Lemma complete_graph_first_path_witness :
  1 ≤ 6 ∧ hamiltonian_path (complete_graph 6) = inr (Some (py_range 6)).
Proof.
  assert (Hn : 1 ≤ 6) by lia.
  split; [exact Hn|exact (complete_graph_first_path 6 Hn)].
Defined.
